(** * hcconfig: the layered configuration manager

    A shallow embedding of [Configuration.class.ts] (the class
    [Configuration<T>]) together with the properties its specification
    states about it.

    Conventions of the embedding.

    - A JavaScript object used as a dictionary ([IConfig], [Partial<T>],
      the five level stores, the built configuration, the payload handed to
      a listener) is a finite map [gmap string _].  Keys range over property
      names that are not inherited from [Object.prototype].
    - A [number] is carried as an integer: the class never computes with
      numbers, it only stores and returns them.
    - The class is stateful.  Its fields are the record [Configuration]; the
      record [World] adds what the instance does to its surroundings: the
      callbacks it has invoked and the timeouts it has pending in the
      runtime.  Methods are computations in the state-and-exception monad
      [M] over [World].
    - A listener callback is opaque caller code; an invocation is recorded
      in [notified].  Callbacks and callers are taken not to write into the
      objects they are handed and callbacks not to call back into the
      instance.
    - A cell ([IConfigurationObject]) is held by value.  In the source the
      built configuration shares its cells with the stores, and two methods
      write through such a cell: [buildConfigurationObjects] its level,
      [resetReadOnlyFlags] its flag.  For the values of the data model of
      the specification (strings, numbers, booleans: [plainConfig]) every
      such write stores what the cell already holds ([builtConfig_overlay]),
      so that sharing cannot be observed; the properties of the stores are
      stated for these values.
    - [Math.random] and the outcome of the awaited backend fetch are inputs
      supplied by the environment, so they are arguments of the operations
      that consume them. *)

From Stdlib Require Import ZArith String.
From stdpp Require Import base option list gmap strings fin_maps pretty.

Open Scope string_scope.
Open Scope list_scope.

(** ** Error codes ([enums/ERRORCODES.ts]) *)

Module ERRORCODES.
Definition UNKNOWN_CONFIG_KEY : string :=
  "The specified configuration key does not exist.".
Definition INSTANCE_NEEDS_DEFAULTCONFIGS : string :=
  "Default configuration must be provided for the first instantiation of singleton Configuration.".
Definition NO_CONFIGURATION_INSTANCE : string :=
  "No Configuration instance exists. Please create one before accessing it.".
Definition NO_BACKEND_UPDATE_FN : string :=
  "No backend update function provided for dynamic backend updates.".
Definition BACKEND_UPDATE_FAILED : string :=
  "Backend update function failed to fetch new configuration.".
Definition CONFIGURATIONS_NOT_BUILT_YET : string :=
  "Configurations have not been built yet.".
Definition UNKNOWN_CONFIG_LEVEL : string :=
  "The specified configuration level is unknown.".
Definition INVALID_CONFIG_TYPE : string :=
  "The configuration value is of an invalid type. Expected string, number, boolean, or null.".
End ERRORCODES.

(** What a [throw] carries: a [ConfigurationError] (message and optional
    cause, [ConfigurationError.ts]), the runtime's own [TypeError], or an
    error raised by caller code such as the backend fetch function. *)
#[warnings="-register-all"] Inductive JsError : Type :=
| ConfigurationError (message : string) (cause : option JsError)
| TypeError (message : string)
| ForeignError (name : string).

Inductive Result (A : Type) : Type :=
| Ok (a : A)
| Throw (e : JsError).
Arguments Ok {A} a.
Arguments Throw {A} e.

(** ** Values ([interfaces/IConfigurationObject.ts]) *)

(** Modelled from the spec: the enumeration [enums/CONFIGLEVEL.ts] is not
    among the sources; its five members are the ones the class names, listed
    in the precedence order of the glossary. *)
Inductive CONFIGLEVEL : Type :=
| DEFAULT | ENVIRONMENT | BACKEND | USER | DYNAMIC.

#[global] Instance CONFIGLEVEL_eq_dec : EqDecision CONFIGLEVEL.
Proof. solve_decision. Defined.

(** [IConfigurationObject]: a value with its meta data. [readonly] is an
    optional property. *)
Record IConfigurationObject_ (V : Type) : Type := mkObject {
  value : V;
  level : CONFIGLEVEL;
  readonly : option bool;
}.
Arguments mkObject {V} value level readonly.
Arguments value {V} _.
Arguments level {V} _.
Arguments readonly {V} _.

(** [ConfigValue = string | number | boolean | IConfigurationObject]. *)
#[warnings="-register-all"] Inductive ConfigValue : Type :=
| VString (s : string)
| VNumber (n : Z)
| VBoolean (b : bool)
| VObject (o : IConfigurationObject_ ConfigValue).

Abbreviation IConfigurationObject := (IConfigurationObject_ ConfigValue).

(** [IConfig]: keys to values. *)
Abbreviation IConfig := (gmap string ConfigValue).

(** [typeof v === "object"]. *)
Definition isObject (v : ConfigValue) : bool :=
  match v with VObject _ => true | _ => false end.

(** [typeof v] is ["string"], ["number"] or ["boolean"]. *)
Definition isScalar (v : ConfigValue) : bool :=
  match v with VObject _ => false | _ => true end.

(** JavaScript truthiness of a possibly [undefined] value. *)
Definition truthy (v : option ConfigValue) : bool :=
  match v with
  | None => false
  | Some (VString s) => negb (String.eqb s "")
  | Some (VNumber n) => negb (Z.eqb n 0)
  | Some (VBoolean b) => b
  | Some (VObject _) => true
  end.

(** What can stand where the constructor expects the default values when
    the type checker is not in the way. *)
Inductive JsValue : Type :=
| JsUndefined
| JsNull
| JsBoolean (b : bool)
| JsNumber (n : Z)
| JsString (s : string)
| JsObject (o : IConfig).

Fixpoint charsFrom (i : nat) (s : string) : list (string * ConfigValue) :=
  match s with
  | EmptyString => []
  | String c rest => (pretty i, VString (String c EmptyString)) :: charsFrom (S i) rest
  end.

(** [Object.keys(conf)] together with [conf[key]] for each of these keys:
    [undefined] and [null] cannot be converted to an object, a number or a
    boolean has no own keys, a string has its indices. *)
Definition ownProperties (conf : JsValue) : Result IConfig :=
  match conf with
  | JsUndefined | JsNull => Throw (TypeError "Cannot convert undefined or null to object")
  | JsBoolean _ | JsNumber _ => Ok ∅
  | JsString s => Ok (list_to_map (charsFrom 0 s))
  | JsObject o => Ok o
  end.

(** ** The instance *)

Record IConfigurationOptions : Type := mkOptions {
  singleton : bool;
  (** whether a backend update function is configured; what it returns when
      awaited is a [FetchOutcome] *)
  backendUpdateFn : bool;
  backendUpdateIntervalMs : Z;
  backendUpdateStartImmediate : bool;
  readOnlyKeys : list string;
}.

(** [Partial<IConfigurationOptions<T>>]. *)
Record PartialOptions : Type := mkPartialOptions {
  p_singleton : option bool;
  p_backendUpdateFn : option bool;
  p_backendUpdateIntervalMs : option Z;
  p_backendUpdateStartImmediate : option bool;
  p_readOnlyKeys : option (list string);
}.

Definition noOptions : PartialOptions := mkPartialOptions None None None None None.

(** [{ ...this.options, ...options }]. *)
Definition mergeOptions (o : IConfigurationOptions) (p : PartialOptions) : IConfigurationOptions :=
  {| singleton := default (singleton o) (p_singleton p);
     backendUpdateFn := default (backendUpdateFn o) (p_backendUpdateFn p);
     backendUpdateIntervalMs := default (backendUpdateIntervalMs o) (p_backendUpdateIntervalMs p);
     backendUpdateStartImmediate :=
       default (backendUpdateStartImmediate o) (p_backendUpdateStartImmediate p);
     readOnlyKeys := default (readOnlyKeys o) (p_readOnlyKeys p) |}.

(** A callback is known by the name the caller gives it. *)
Definition Callback : Type := string.

Record IListener : Type := mkListener {
  id : string;
  keys : list string;
  callback : Callback;
}.

#[global] Instance IListener_eq_dec : EqDecision IListener.
Proof. solve_decision. Defined.

(** The object a callback receives: property names to values, a value being
    possibly [undefined]. *)
Abbreviation Payload := (gmap string (option ConfigValue)).

Record Configuration : Type := mkConfiguration {
  options : IConfigurationOptions;
  defaultConfig : IConfig;
  environmentConfig : IConfig;
  backendConfig : IConfig;
  userConfig : IConfig;
  dynamicConfig : IConfig;
  changedKeysBuffer : gset string;
  config : option IConfig;
  listeners : list IListener;
  backendUpdateTimeout : option nat;
}.

(** The field initialisers of the class. *)
Definition fieldInitialisers : Configuration :=
  {| options := mkOptions false false 60000 false [];
     defaultConfig := ∅;
     environmentConfig := ∅;
     backendConfig := ∅;
     userConfig := ∅;
     dynamicConfig := ∅;
     changedKeysBuffer := ∅;
     config := None;
     listeners := [];
     backendUpdateTimeout := None |}.

Definition set_options (v : IConfigurationOptions) (c : Configuration) : Configuration :=
  mkConfiguration v (defaultConfig c) (environmentConfig c) (backendConfig c) (userConfig c)
    (dynamicConfig c) (changedKeysBuffer c) (config c) (listeners c) (backendUpdateTimeout c).
Definition set_defaultConfig (v : IConfig) (c : Configuration) : Configuration :=
  mkConfiguration (options c) v (environmentConfig c) (backendConfig c) (userConfig c)
    (dynamicConfig c) (changedKeysBuffer c) (config c) (listeners c) (backendUpdateTimeout c).
Definition set_environmentConfig (v : IConfig) (c : Configuration) : Configuration :=
  mkConfiguration (options c) (defaultConfig c) v (backendConfig c) (userConfig c)
    (dynamicConfig c) (changedKeysBuffer c) (config c) (listeners c) (backendUpdateTimeout c).
Definition set_backendConfig (v : IConfig) (c : Configuration) : Configuration :=
  mkConfiguration (options c) (defaultConfig c) (environmentConfig c) v (userConfig c)
    (dynamicConfig c) (changedKeysBuffer c) (config c) (listeners c) (backendUpdateTimeout c).
Definition set_userConfig (v : IConfig) (c : Configuration) : Configuration :=
  mkConfiguration (options c) (defaultConfig c) (environmentConfig c) (backendConfig c) v
    (dynamicConfig c) (changedKeysBuffer c) (config c) (listeners c) (backendUpdateTimeout c).
Definition set_dynamicConfig (v : IConfig) (c : Configuration) : Configuration :=
  mkConfiguration (options c) (defaultConfig c) (environmentConfig c) (backendConfig c)
    (userConfig c) v (changedKeysBuffer c) (config c) (listeners c) (backendUpdateTimeout c).
Definition set_changedKeysBuffer (v : gset string) (c : Configuration) : Configuration :=
  mkConfiguration (options c) (defaultConfig c) (environmentConfig c) (backendConfig c)
    (userConfig c) (dynamicConfig c) v (config c) (listeners c) (backendUpdateTimeout c).
Definition set_config (v : option IConfig) (c : Configuration) : Configuration :=
  mkConfiguration (options c) (defaultConfig c) (environmentConfig c) (backendConfig c)
    (userConfig c) (dynamicConfig c) (changedKeysBuffer c) v (listeners c) (backendUpdateTimeout c).
Definition set_listeners (v : list IListener) (c : Configuration) : Configuration :=
  mkConfiguration (options c) (defaultConfig c) (environmentConfig c) (backendConfig c)
    (userConfig c) (dynamicConfig c) (changedKeysBuffer c) (config c) v (backendUpdateTimeout c).
Definition set_backendUpdateTimeout (v : option nat) (c : Configuration) : Configuration :=
  mkConfiguration (options c) (defaultConfig c) (environmentConfig c) (backendConfig c)
    (userConfig c) (dynamicConfig c) (changedKeysBuffer c) (config c) (listeners c) v.

(** One invocation of a listener callback. *)
Record Call : Type := mkCall {
  callee : Callback;
  payload : Payload;
}.

(** The instance in its surroundings. [timers] are the timeouts pending in
    the runtime, each with its handle and its delay; every one of them was
    set by [runBackendAutoUpdate] and runs it again when it fires. *)
Record World : Type := mkWorld {
  this : Configuration;
  notified : list Call;
  timers : list (nat * Z);
  timerSeq : nat;
}.

Definition newWorld : World := mkWorld fieldInitialisers [] [] 0.

(** ** The monad of methods *)

Definition M (A : Type) : Type := World → Result A * World.

#[global] Instance M_ret : MRet M := λ A a w, (Ok a, w).

#[global] Instance M_bind : MBind M := λ A B f m w,
  match m w with
  | (Ok a, w') => f a w'
  | (Throw e, w') => (Throw e, w')
  end.

Definition throw {A : Type} (e : JsError) : M A := λ w, (Throw e, w).

Definition getThis : M Configuration := λ w, (Ok (this w), w).

Definition modify (f : Configuration → Configuration) : M unit :=
  λ w, (Ok tt, mkWorld (f (this w)) (notified w) (timers w) (timerSeq w)).

(** [callback(payload)]. *)
Definition invoke (cb : Callback) (p : Payload) : M unit :=
  λ w, (Ok tt, mkWorld (this w) (notified w ++ [mkCall cb p]) (timers w) (timerSeq w)).

(** [clearTimeout(h)]. *)
Definition clearTimeout (h : nat) : M unit :=
  λ w, (Ok tt, mkWorld (this w) (notified w)
                 (filter (λ t, t.1 ≠ h) (timers w)) (timerSeq w)).

(** [setTimeout(() => this.runBackendAutoUpdate(), delay)]. *)
Definition setTimeout (delay : Z) : M nat :=
  λ w, (Ok (timerSeq w),
        mkWorld (this w) (notified w) (timers w ++ [(timerSeq w, delay)]) (S (timerSeq w))).

Definition liftResult {A : Type} (r : Result A) : M A :=
  match r with Ok a => mret a | Throw e => throw e end.

(** [xs.forEach(body)]. *)
Fixpoint forEach {A : Type} (xs : list A) (body : A → M unit) : M unit :=
  match xs with
  | [] => mret tt
  | x :: rest => body x;; forEach rest body
  end.

(** ** Private methods: building the configuration *)

(** [this.options.readOnlyKeys.includes(key)]. *)
Definition isReadOnlyKey (o : IConfigurationOptions) (key : string) : bool :=
  bool_decide (key ∈ readOnlyKeys o).

(** The body of the loop of [buildConfigurationObjects]: what is stored
    under [key] for the value [val] found there. An object is kept and its
    level overwritten; anything else is wrapped. *)
Definition buildConfigurationObject (o : IConfigurationOptions) (level : CONFIGLEVEL)
    (key : string) (val : ConfigValue) : ConfigValue :=
  match val with
  | VObject valObj => VObject (mkObject (value valObj) level (readonly valObj))
  | _ => VObject (mkObject val level (Some (isReadOnlyKey o key)))
  end.

Definition buildConfigurationObjects (conf : JsValue) (level : CONFIGLEVEL) : M IConfig :=
  c ← getThis;
  props ← liftResult (ownProperties conf);
  mret (map_imap (λ key val, Some (buildConfigurationObject (options c) level key val)) props).

Definition buildDefaultValues (conf : JsValue) : M IConfig :=
  buildConfigurationObjects conf DEFAULT.

(** The body of the loop of [resetReadOnlyFlags]. *)
Definition resetReadOnlyFlag (o : IConfigurationOptions) (key : string) (val : ConfigValue)
    : ConfigValue :=
  if isReadOnlyKey o key then
    match val with
    | VObject valObj => VObject (mkObject (value valObj) (level valObj) (Some true))
    | _ => val
    end
  else val.

Definition resetReadOnlyFlags : M unit :=
  c ← getThis;
  match config c with
  | None => throw (ConfigurationError ERRORCODES.CONFIGURATIONS_NOT_BUILT_YET None)
  | Some cfg =>
      modify (set_config (Some (map_imap (λ key val, Some (resetReadOnlyFlag (options c) key val)) cfg)))
  end.

(** The inner loop of [triggerListeners]: the changes relevant to a
    listener, collected key by key. *)
Definition relevantChanges (cfg : IConfig) (changed : gset string) (ks : list string) : Payload :=
  foldl (λ acc key, if bool_decide (key ∈ changed) then <[key := cfg !! key]> acc else acc) ∅ ks.

(** The body of the outer loop of [triggerListeners]. *)
Definition triggerListener (listener : IListener) : M unit :=
  c ← getThis;
  if Nat.eqb (length (keys listener)) 0 then
    match config c with
    | None => mret tt
    | Some cfg => invoke (callback listener) (Some <$> cfg)
    end
  else
    match config c with
    | None => mret tt
    | Some cfg =>
        let relevant := relevantChanges cfg (changedKeysBuffer c) (keys listener) in
        if Nat.ltb 0 (size relevant) then invoke (callback listener) relevant else mret tt
    end.

Definition triggerListeners : M unit :=
  c ← getThis;
  match config c with
  | None => mret tt
  | Some _ =>
      forEach (listeners c) triggerListener;;
      modify (set_changedKeysBuffer ∅)
  end.

(** [buildConfig]: later spreads win, so the union lists them first. *)
Definition buildConfig : M unit :=
  c ← getThis;
  d ← buildDefaultValues (JsObject (defaultConfig c));
  e ← buildConfigurationObjects (JsObject (environmentConfig c)) ENVIRONMENT;
  b ← buildConfigurationObjects (JsObject (backendConfig c)) BACKEND;
  u ← buildConfigurationObjects (JsObject (userConfig c)) USER;
  y ← buildConfigurationObjects (JsObject (dynamicConfig c)) DYNAMIC;
  modify (set_config (Some (y ∪ u ∪ b ∪ e ∪ d)));;
  resetReadOnlyFlags;;
  triggerListeners.

(** [updateChangedKeysBufferWithPartialConfig]: the loop runs over the keys
    of [newConf], for which [key in newConf] holds, so the inner test never
    adds anything. *)
Definition updateChangedKeysBufferWithPartialConfig (newConf : IConfig) (oldConf : option IConfig)
    : M unit :=
  forEach (map fst (map_to_list newConf)) (λ key,
    modify (λ c, set_changedKeysBuffer ({[key]} ∪ changedKeysBuffer c) c);;
    if bool_decide (is_Some oldConf) && negb (bool_decide (is_Some (newConf !! key)))
    then modify (λ c, set_changedKeysBuffer ({[key]} ∪ changedKeysBuffer c) c)
    else mret tt).

(** ** Public methods: reading *)

Definition getValue (key : string) : M (option ConfigValue) :=
  c ← getThis;
  match config c with
  | Some cfg =>
      match cfg !! key with
      | None => mret None
      | Some (VObject confObj) => mret (Some (value confObj))
      | Some conf => mret (Some conf)
      end
  | None => mret None
  end.

(** [getConfig]: the copy of an object is the same value. *)
Definition getConfig (key : string) : M (option ConfigValue) :=
  c ← getThis;
  match config c with
  | None => throw (ConfigurationError ERRORCODES.CONFIGURATIONS_NOT_BUILT_YET None)
  | Some cfg =>
      match cfg !! key with
      | Some (VObject o) => mret (Some (VObject (mkObject (value o) (level o) (readonly o))))
      | other => mret other
      end
  end.

Definition getConfigs : M IConfig :=
  c ← getThis;
  match config c with
  | Some cfg => mret cfg
  | None => throw (ConfigurationError "Configuration has not been built yet." None)
  end.

Definition getConfigsForLevel (lvl : CONFIGLEVEL) : M IConfig :=
  c ← getThis;
  match config c with
  | None => throw (ConfigurationError ERRORCODES.CONFIGURATIONS_NOT_BUILT_YET None)
  | Some _ =>
      match lvl with
      | DEFAULT => mret (defaultConfig c)
      | ENVIRONMENT => mret (environmentConfig c)
      | BACKEND => mret (backendConfig c)
      | USER => mret (userConfig c)
      | DYNAMIC => mret (dynamicConfig c)
      end
  end.

(** ** Public methods: subscribing *)

(** The first argument of [subscribe]: an array of keys or a single key. *)
Inductive KeysArg : Type :=
| KeyArray (ks : list string)
| SingleKey (k : string).

Definition keysOf (a : KeysArg) : list string :=
  match a with KeyArray ks => ks | SingleKey k => [k] end.

(** [subscribe]. [rnd] is [Math.round(Math.random() * 10000)]. What is
    returned is the identifier closed over by the unsubscribe function. *)
Definition subscribe (ks : KeysArg) (cb : Callback) (rnd : nat) : M string :=
  c ← getThis;
  let id := "listener-id-" +:+ pretty (length (listeners c)) +:+ "-" +:+ pretty rnd in
  let listener := mkListener id (keysOf ks) cb in
  modify (set_listeners (listeners c ++ [listener]));;
  mret id.

(** The function returned by [subscribe], closed over [id]. *)
Definition unsubscribe (id0 : string) : M unit :=
  modify (λ c, set_listeners (filter (λ l, id l ≠ id0) (listeners c)) c).

(** ** Public methods: writing *)

Definition setConfig (key : string) (val : ConfigValue) : M bool :=
  c ← getThis;
  match config c with
  | None => throw (ConfigurationError ERRORCODES.CONFIGURATIONS_NOT_BUILT_YET None)
  | Some _ =>
      conf ← getConfig key;
      if negb (truthy conf) then throw (ConfigurationError ERRORCODES.UNKNOWN_CONFIG_KEY None)
      else if isReadOnlyKey (options c) key then mret false
      else
        (match conf with
         | Some (VObject o) =>
             let confObj := mkObject val (level o) (readonly o) in
             let confObj :=
               if decide (level o = DEFAULT)
               then mkObject (value confObj) (level confObj) (Some true) else confObj in
             let confObj := mkObject (value confObj) DYNAMIC (readonly confObj) in
             let confObj := mkObject (value confObj) (level confObj) (Some false) in
             modify (λ c, set_dynamicConfig (<[key := VObject confObj]> (dynamicConfig c)) c)
         | _ =>
             let newConfObj := mkObject val DYNAMIC None in
             modify (λ c, set_dynamicConfig (<[key := VObject newConfObj]> (dynamicConfig c)) c)
         end);;
        modify (λ c, set_changedKeysBuffer ({[key]} ∪ changedKeysBuffer c) c);;
        buildConfig;;
        mret true
  end.

Definition deleteConfig (key : string) : M unit :=
  modify (λ c, set_dynamicConfig (delete key (dynamicConfig c)) c);;
  modify (λ c, set_changedKeysBuffer ({[key]} ∪ changedKeysBuffer c) c);;
  buildConfig.

Definition setEnvironmentConfig (conf : IConfig) (override : bool) : M unit :=
  c ← getThis;
  (if override then
     let oldEnv := environmentConfig c in
     built ← buildConfigurationObjects (JsObject conf) ENVIRONMENT;
     modify (set_environmentConfig built);;
     updateChangedKeysBufferWithPartialConfig conf (Some oldEnv)
   else
     built ← buildConfigurationObjects (JsObject conf) ENVIRONMENT;
     modify (set_environmentConfig (built ∪ environmentConfig c));;
     updateChangedKeysBufferWithPartialConfig conf None);;
  buildConfig.

Definition setBackendConfig (conf : IConfig) (override : bool) : M unit :=
  c ← getThis;
  (if override then
     let oldBackend := backendConfig c in
     built ← buildConfigurationObjects (JsObject conf) BACKEND;
     modify (set_backendConfig built);;
     updateChangedKeysBufferWithPartialConfig conf (Some oldBackend)
   else
     built ← buildConfigurationObjects (JsObject conf) BACKEND;
     modify (set_backendConfig (built ∪ backendConfig c));;
     updateChangedKeysBufferWithPartialConfig conf None);;
  buildConfig.

Definition setUserConfig (conf : IConfig) (override : bool) : M unit :=
  c ← getThis;
  let filteredConfig : IConfig :=
    filter (λ kv, isReadOnlyKey (options c) kv.1 = false) conf in
  (if override then
     let oldUser := userConfig c in
     built ← buildConfigurationObjects (JsObject filteredConfig) USER;
     modify (set_userConfig built);;
     updateChangedKeysBufferWithPartialConfig filteredConfig (Some oldUser)
   else
     built ← buildConfigurationObjects (JsObject filteredConfig) USER;
     modify (set_userConfig (built ∪ userConfig c));;
     updateChangedKeysBufferWithPartialConfig filteredConfig None);;
  buildConfig.

(** ** The backend refresh loop *)

(** What awaiting [this.options.backendUpdateFn({ ...this.config })] gives:
    the promise resolves with a result, possibly [undefined], or the
    function throws or the promise rejects. *)
Inductive FetchOutcome : Type :=
| Resolved (res : option IConfig)
| Rejected (error : JsError).

(** [try { body } catch (error) { handler(error) }]. *)
Definition tryCatch {A : Type} (body : M A) (handler : JsError → M A) : M A :=
  λ w, match body w with
       | (Ok a, w') => (Ok a, w')
       | (Throw e, w') => handler e w'
       end.

(** [runBackendAutoUpdate] up to its [await]: the fetch has been issued. *)
Definition runBackendAutoUpdate_issue : M unit :=
  c ← getThis;
  if negb (backendUpdateFn (options c))
  then throw (ConfigurationError ERRORCODES.NO_BACKEND_UPDATE_FN None)
  else
    match backendUpdateTimeout c with
    | Some h => clearTimeout h
    | None => mret tt
    end.

(** [runBackendAutoUpdate] from its [await] on: the fetch has settled. *)
Definition runBackendAutoUpdate_settle (fetch : FetchOutcome) : M unit :=
  tryCatch
    (res ← match fetch with
           | Resolved res => mret res
           | Rejected error => throw error
           end;
     match res with
     | Some r => if Nat.ltb 0 (size r) then setBackendConfig r true else mret tt
     | None => mret tt
     end)
    (λ error, throw (ConfigurationError ERRORCODES.BACKEND_UPDATE_FAILED (Some error)));;
  c ← getThis;
  h ← setTimeout (if Z.eqb (backendUpdateIntervalMs (options c)) 0
                  then 60000%Z else backendUpdateIntervalMs (options c));
  modify (set_backendUpdateTimeout (Some h)).

(** One whole invocation, nothing else running while the fetch is awaited. *)
Definition runBackendAutoUpdate (fetch : FetchOutcome) : M unit :=
  runBackendAutoUpdate_issue;; runBackendAutoUpdate_settle fetch.

(** [startBackendAutoUpdate], awaited by its caller: [Throw] is the
    rejection of the returned promise. *)
Definition startBackendAutoUpdate (fetch : FetchOutcome) : M bool :=
  c ← getThis;
  if negb (backendUpdateFn (options c))
  then throw (ConfigurationError ERRORCODES.NO_BACKEND_UPDATE_FN None)
  else if bool_decide (is_Some (backendUpdateTimeout c)) && backendUpdateFn (options c)
  then mret true
  else if backendUpdateFn (options c)
  then runBackendAutoUpdate fetch;; mret true
  else mret false.

Definition stopBackendAutoUpdate : M unit :=
  c ← getThis;
  match backendUpdateTimeout c with
  | Some h => clearTimeout h;; modify (set_backendUpdateTimeout None)
  | None => mret tt
  end.

(** The runtime takes the pending timeout [h] off its table. *)
Definition elapse (h : nat) : M unit :=
  λ w, (Ok tt, mkWorld (this w) (notified w) (filter (λ t, t.1 ≠ h) (timers w)) (timerSeq w)).

(** The timeout [h] fires and its callback runs [runBackendAutoUpdate]; a
    [Throw] is the rejection of a promise nobody awaits. A handle that is
    not pending does not fire. *)
Definition timerFires (h : nat) (fetch : FetchOutcome) : M unit :=
  λ w, if bool_decide (h ∈ map fst (timers w))
       then (elapse h;; runBackendAutoUpdate fetch) w
       else (Ok tt, w).

(** The loop left to itself: as long as a timeout is pending it fires and
    the next fetch outcome is consumed. Returns the number of invocations
    made; with nothing pending, nothing more ever runs. *)
Fixpoint runTimers (fetches : list FetchOutcome) (w : World) : nat * World :=
  match fetches with
  | [] => (0, w)
  | fetch :: rest =>
      match timers w with
      | [] => (0, w)
      | (h, _) :: _ =>
          let w' := (timerFires h fetch w).2 in
          let r := runTimers rest w' in
          (S r.1, r.2)
      end
  end.

(** ** The constructor *)

(** A promise that is not awaited: its rejection does not reach the code
    that made the call. *)
Definition detached {A : Type} (m : M A) : M unit :=
  λ w, (Ok tt, (m w).2).

(** The constructor from [this.options = ...] on. *)
Definition construct (defaultConfig0 : JsValue) (opts : PartialOptions) : M unit :=
  modify (λ c, set_options (mergeOptions (options c) opts) c);;
  d ← buildDefaultValues defaultConfig0;
  modify (set_defaultConfig d);;
  buildConfig;;
  c ← getThis;
  if backendUpdateFn (options c) && backendUpdateStartImmediate (options c)
  then detached runBackendAutoUpdate_issue
  else mret tt.

(** What [new Configuration(defaultConfig, options)] evaluates to: the
    object already held by the static [Configuration.instance], or a new
    object, which the constructor may have stored in that static. *)
Inductive Constructed : Type :=
| ExistingInstance
| NewInstance (w : World) (stored : bool).

(** [hasInstance] tells whether [Configuration.instance] is set. *)
Definition constructor (hasInstance : bool) (defaultConfig0 : JsValue) (opts : PartialOptions)
    : Result Constructed :=
  if hasInstance && default false (p_singleton opts) then Ok ExistingInstance
  else
    match construct defaultConfig0 opts newWorld with
    | (Ok _, w) => Ok (NewInstance w (singleton (options (this w))))
    | (Throw e, _) => Throw e
    end.

(** ** Static helpers *)

Definition helperSetValue (original : ConfigValue) (newValue : ConfigValue) : ConfigValue :=
  match original with
  | VObject o => VObject (mkObject newValue (level o) (readonly o))
  | _ => newValue
  end.

(** [helperGetValue]; [None] is [undefined]. *)
Definition helperGetValue (original : ConfigValue) : option ConfigValue :=
  match original with
  | VObject origObj => if isScalar (value origObj) then Some (value origObj) else None
  | _ => Some original
  end.


(** ** Sequences of calls *)

(** What callers and the runtime can do with an instance. *)
Inductive Op : Type :=
| OpSetConfig (key : string) (val : ConfigValue)
| OpDeleteConfig (key : string)
| OpSetEnvironmentConfig (conf : IConfig) (override : bool)
| OpSetBackendConfig (conf : IConfig) (override : bool)
| OpSetUserConfig (conf : IConfig) (override : bool)
| OpSubscribe (ks : KeysArg) (cb : Callback) (rnd : nat)
| OpUnsubscribe (id0 : string)
| OpStartBackendAutoUpdate (fetch : FetchOutcome)
| OpStopBackendAutoUpdate
| OpTimerFires (h : nat) (fetch : FetchOutcome)
| OpTimerElapses (h : nat)
| OpFetchIssued
| OpFetchSettles (fetch : FetchOutcome).

(** The last three are the pieces of an invocation of the refresh loop when
    other calls run while its fetch is awaited. *)
Definition exec (op : Op) : M unit :=
  match op with
  | OpSetConfig key val => setConfig key val;; mret tt
  | OpDeleteConfig key => deleteConfig key
  | OpSetEnvironmentConfig conf override => setEnvironmentConfig conf override
  | OpSetBackendConfig conf override => setBackendConfig conf override
  | OpSetUserConfig conf override => setUserConfig conf override
  | OpSubscribe ks cb rnd => subscribe ks cb rnd;; mret tt
  | OpUnsubscribe id0 => unsubscribe id0
  | OpStartBackendAutoUpdate fetch => startBackendAutoUpdate fetch;; mret tt
  | OpStopBackendAutoUpdate => stopBackendAutoUpdate
  | OpTimerFires h fetch => timerFires h fetch
  | OpTimerElapses h => elapse h
  | OpFetchIssued => runBackendAutoUpdate_issue
  | OpFetchSettles fetch => runBackendAutoUpdate_settle fetch
  end.

(** The data model of the specification: the values callers supply for a
    level are strings, numbers and booleans. *)
Definition plainConfig (conf : IConfig) : Prop :=
  map_Forall (λ _ val, isScalar val = true) conf.

Definition plainFetch (fetch : FetchOutcome) : Prop :=
  match fetch with
  | Resolved (Some r) => plainConfig r
  | _ => True
  end.

Definition plainOp (op : Op) : Prop :=
  match op with
  | OpSetEnvironmentConfig conf _ | OpSetBackendConfig conf _ | OpSetUserConfig conf _ =>
      plainConfig conf
  | OpStartBackendAutoUpdate fetch | OpTimerFires _ fetch | OpFetchSettles fetch =>
      plainFetch fetch
  | _ => True
  end.

(** The states of an instance: what the constructor leaves, and what any
    call leaves from there, whether it returns or throws. *)
Inductive reachable : World → Prop :=
| reachable_new defaults opts w :
    plainConfig defaults →
    construct (JsObject defaults) opts newWorld = (Ok tt, w) →
    reachable w
| reachable_exec op w r w' :
    reachable w → plainOp op → exec op w = (r, w') → reachable w'.

(** Running calls one after the other, whatever each one returns. *)
Definition execAll (ops : list Op) (w : World) : World :=
  foldl (λ w op, (exec op w).2) w ops.

(** ** The stores as the specification sees them *)

(** The store of a level. *)
Definition store (c : Configuration) (l : CONFIGLEVEL) : IConfig :=
  match l with
  | DEFAULT => defaultConfig c
  | ENVIRONMENT => environmentConfig c
  | BACKEND => backendConfig c
  | USER => userConfig c
  | DYNAMIC => dynamicConfig c
  end.

(** [DEFAULT < ENVIRONMENT < BACKEND < USER < DYNAMIC], highest first. *)
Definition precedence : list CONFIGLEVEL := [DYNAMIC; USER; BACKEND; ENVIRONMENT; DEFAULT].

(** The levels strictly below a level, highest first. *)
Definition below (l : CONFIGLEVEL) : list CONFIGLEVEL :=
  match l with
  | DYNAMIC => [USER; BACKEND; ENVIRONMENT; DEFAULT]
  | USER => [BACKEND; ENVIRONMENT; DEFAULT]
  | BACKEND => [ENVIRONMENT; DEFAULT]
  | ENVIRONMENT => [DEFAULT]
  | DEFAULT => []
  end.

(** The first of the given levels whose store contains the key. *)
Fixpoint firstContaining (c : Configuration) (key : string) (ls : list CONFIGLEVEL)
    : option CONFIGLEVEL :=
  match ls with
  | [] => None
  | l :: rest =>
      match store c l !! key with
      | Some _ => Some l
      | None => firstContaining c key rest
      end
  end.

(** The highest level among the stores containing the key. *)
Definition highestLevel (c : Configuration) (key : string) : option CONFIGLEVEL :=
  firstContaining c key precedence.

(** The cell of the highest-precedence store containing the key. *)
Definition cellFromHighestNonEmptyLevel (c : Configuration) (key : string)
    : option ConfigValue :=
  l ← highestLevel c key; store c l !! key.

(** The cell of the highest-precedence store below [l] containing the key. *)
Definition cellFromNextLevel (c : Configuration) (l : CONFIGLEVEL) (key : string)
    : option ConfigValue :=
  l' ← firstContaining c key (below l); store c l' !! key.

(** The level recorded in a cell. *)
Definition levelOf (v : ConfigValue) : option CONFIGLEVEL :=
  match v with VObject o => Some (level o) | _ => None end.


(** The five stores laid over one another, in the order [buildConfig]
    spreads them. *)
Definition overlay (c : Configuration) : IConfig :=
  dynamicConfig c ∪ userConfig c ∪ backendConfig c ∪ environmentConfig c ∪ defaultConfig c.

(** ** What the methods leave behind *)

(** What [buildConfigurationObjects] returns for an object. *)
Definition builtObjects (o : IConfigurationOptions) (l : CONFIGLEVEL) (conf : IConfig) : IConfig :=
  map_imap (λ key val, Some (buildConfigurationObject o l key val)) conf.

(** The configuration [buildConfig] builds from the fields. *)
Definition builtConfig (c : Configuration) : IConfig :=
  map_imap (λ key val, Some (resetReadOnlyFlag (options c) key val))
    (builtObjects (options c) DYNAMIC (dynamicConfig c)
     ∪ builtObjects (options c) USER (userConfig c)
     ∪ builtObjects (options c) BACKEND (backendConfig c)
     ∪ builtObjects (options c) ENVIRONMENT (environmentConfig c)
     ∪ builtObjects (options c) DEFAULT (defaultConfig c)).

(** The calls one listener receives in a rebuild. *)
Definition listenerCalls (cfg : IConfig) (changed : gset string) (l : IListener) : list Call :=
  if Nat.eqb (length (keys l)) 0 then [mkCall (callback l) (Some <$> cfg)]
  else
    let relevant := relevantChanges cfg changed (keys l) in
    if Nat.ltb 0 (size relevant) then [mkCall (callback l) relevant] else [].

(** The calls all listeners receive in a rebuild, in the order of their
    registration. *)
Definition announce (c : Configuration) : list Call :=
  concat (map (listenerCalls (builtConfig c) (changedKeysBuffer c)) (listeners c)).

(** The fields after a rebuild. *)
Definition rebuilt (c : Configuration) : Configuration :=
  set_changedKeysBuffer ∅ (set_config (Some (builtConfig c)) c).

(** The world after a write: the fields [c1] the write has prepared are
    rebuilt and the listeners are called. *)
Definition written (c1 : Configuration) (w : World) : World :=
  mkWorld (rebuilt c1) (notified w ++ announce c1) (timers w) (timerSeq w).

(** The cell [setConfig] stores, given what [getConfig] returned. *)
Definition dynamicCell (conf : option ConfigValue) (val : ConfigValue) : ConfigValue :=
  match conf with
  | Some (VObject _) => VObject (mkObject val DYNAMIC (Some false))
  | _ => VObject (mkObject val DYNAMIC None)
  end.

(** The fields a successful [setConfig] prepares for the rebuild. *)
Definition setConfig_fields (key : string) (cell : ConfigValue) (c : Configuration)
    : Configuration :=
  set_changedKeysBuffer ({[key]} ∪ changedKeysBuffer c)
    (set_dynamicConfig (<[key := cell]> (dynamicConfig c)) c).

(** The fields [deleteConfig] prepares for the rebuild. *)
Definition deleteConfig_fields (key : string) (c : Configuration) : Configuration :=
  set_changedKeysBuffer ({[key]} ∪ changedKeysBuffer c)
    (set_dynamicConfig (delete key (dynamicConfig c)) c).

(** The read-only keys filtered out, as [setUserConfig] does first. *)
Definition filteredConfig (o : IConfigurationOptions) (conf : IConfig) : IConfig :=
  filter (λ kv, isReadOnlyKey o kv.1 = false) conf.

(** The fields the three level writes prepare for the rebuild. *)
Definition setEnvironmentConfig_fields (conf : IConfig) (override : bool) (c : Configuration)
    : Configuration :=
  let built := builtObjects (options c) ENVIRONMENT conf in
  set_changedKeysBuffer (dom conf ∪ changedKeysBuffer c)
    (set_environmentConfig (if override then built else built ∪ environmentConfig c) c).

Definition setBackendConfig_fields (conf : IConfig) (override : bool) (c : Configuration)
    : Configuration :=
  let built := builtObjects (options c) BACKEND conf in
  set_changedKeysBuffer (dom conf ∪ changedKeysBuffer c)
    (set_backendConfig (if override then built else built ∪ backendConfig c) c).

Definition setUserConfig_fields (conf : IConfig) (override : bool) (c : Configuration)
    : Configuration :=
  let filtered := filteredConfig (options c) conf in
  let built := builtObjects (options c) USER filtered in
  set_changedKeysBuffer (dom filtered ∪ changedKeysBuffer c)
    (set_userConfig (if override then built else built ∪ userConfig c) c).

(** The fields the constructor prepares for the first build. *)
Definition construct_fields (props : IConfig) (opts : PartialOptions) : Configuration :=
  let o := mergeOptions (options fieldInitialisers) opts in
  set_defaultConfig (builtObjects o DEFAULT props) (set_options o fieldInitialisers).

(** The delay of the next invocation:
    [this.options.backendUpdateIntervalMs || 60000]. *)
Definition delayOf (c : Configuration) : Z :=
  if Z.eqb (backendUpdateIntervalMs (options c)) 0
  then 60000%Z else backendUpdateIntervalMs (options c).

(** The world once the next invocation has been scheduled. *)
Definition scheduled (w : World) : World :=
  mkWorld (set_backendUpdateTimeout (Some (timerSeq w)) (this w)) (notified w)
    (timers w ++ [(timerSeq w, delayOf (this w))]) (S (timerSeq w)).

(** The result that makes [runBackendAutoUpdate] write to the BACKEND
    level: it is neither [undefined] nor without keys. *)
Definition fetched (fetch : FetchOutcome) : option IConfig :=
  match fetch with
  | Resolved (Some r) => if Nat.ltb 0 (size r) then Some r else None
  | _ => None
  end.

(** ** The invariant of an instance between two calls *)

(** What the cells of the store of a level look like: the level is the
    store's, the flag is the key's membership in the read-only keys. *)
Definition cellOK (o : IConfigurationOptions) (l : CONFIGLEVEL) (key : string)
    (v : ConfigValue) : Prop :=
  ∃ x, v = VObject (mkObject x l (Some (isReadOnlyKey o key))).

Definition storeOK (o : IConfigurationOptions) (l : CONFIGLEVEL) (s : IConfig) : Prop :=
  map_Forall (cellOK o l) s.

Definition storesOK (c : Configuration) : Prop :=
  ∀ l, storeOK (options c) l (store c l).

Record wf (w : World) : Prop := mkWf {
  wf_stores : storesOK (this w);
  wf_config : config (this w) = Some (overlay (this w));
  wf_buffer : changedKeysBuffer (this w) = ∅;
}.

(** The keys a write puts in the buffer of changed keys. *)
Definition suppliedKeys (o : IConfigurationOptions) (op : Op) : gset string :=
  match op with
  | OpSetConfig key _ | OpDeleteConfig key => {[key]}
  | OpSetEnvironmentConfig conf _ | OpSetBackendConfig conf _ => dom conf
  | OpSetUserConfig conf _ => dom (filteredConfig o conf)
  | _ => ∅
  end.

(** The states of an instance whatever the values callers supply. *)
Inductive constructed : World → Prop :=
| constructed_new defaults opts w :
    construct defaults opts newWorld = (Ok tt, w) → constructed w
| constructed_exec op w r w' :
    constructed w → exec op w = (r, w') → constructed w'.

(** [this.config[key]], [None] being [undefined]. *)
Definition effective (c : Configuration) (key : string) : option ConfigValue :=
  cfg ← config c; cfg !! key.

(** What no call changes and no call undoes: the options, the DEFAULT
    store, and the configuration being built. *)
Definition frame (w w' : World) : Prop :=
  options (this w') = options (this w)
  ∧ defaultConfig (this w') = defaultConfig (this w)
  ∧ (is_Some (config (this w)) → is_Some (config (this w'))).

(** [plainConfig], computed. *)
Definition isPlainConfig (conf : IConfig) : bool :=
  forallb (λ kv, isScalar kv.2) (map_to_list conf).

Definition isPlainFetch (fetch : FetchOutcome) : bool :=
  match fetch with
  | Resolved (Some r) => isPlainConfig r
  | _ => true
  end.

Definition isPlainOp (op : Op) : bool :=
  match op with
  | OpSetEnvironmentConfig conf _ | OpSetBackendConfig conf _ | OpSetUserConfig conf _ =>
      isPlainConfig conf
  | OpStartBackendAutoUpdate fetch | OpTimerFires _ fetch | OpFetchSettles fetch =>
      isPlainFetch fetch
  | _ => true
  end.

(** ** A sample instance

    Defaults [{foo: "bar", bar: 10}] with [foo] read only, a listener on
    [bar], an environment value for [foo], a user value and a dynamic value
    for [bar]. *)
Definition sampleDefaults : IConfig := {[ "foo" := VString "bar"; "bar" := VNumber 10 ]}.

Definition sampleOptions : PartialOptions :=
  mkPartialOptions None None None None (Some ["foo"]).

Definition sampleOps : list Op :=
  [ OpSubscribe (KeyArray ["bar"]) "onBar" 4711;
    OpSetEnvironmentConfig {[ "foo" := VString "env" ]} false;
    OpSetUserConfig {[ "bar" := VNumber 20 ]} false;
    OpSetConfig "bar" (VNumber 30) ].

Definition sampleWorld : World :=
  execAll sampleOps (construct (JsObject sampleDefaults) sampleOptions newWorld).2.


(** The callback invocations made between two states of the world. *)
Definition callsDuring (w w' : World) : list Call :=
  drop (length (notified w)) (notified w').


(** The identifier [subscribe] gives the listener it registers. *)
Definition listenerId (c : Configuration) (rnd : nat) : string :=
  "listener-id-" +:+ pretty (length (listeners c)) +:+ "-" +:+ pretty rnd.

(** The listener [subscribe] registers. *)
Definition newListener (c : Configuration) (ks : KeysArg) (cb : Callback) (rnd : nat)
    : IListener :=
  mkListener (listenerId c rnd) (keysOf ks) cb.

(** An instance with a backend update function and an interval of 50 ms,
    whose loop has been started and has made its first fetch. *)
Definition loopOptions : PartialOptions :=
  mkPartialOptions None (Some true) (Some 50%Z) None None.

Definition loopWorld : World :=
  (startBackendAutoUpdate (Resolved (Some {[ "bar" := VNumber 11 ]}))
     (construct (JsObject sampleDefaults) loopOptions newWorld).2).2.

(** Three subscriptions to [bar], the first one cancelled before the third
    is made, the random numbers drawn for the second and the third being the
    same. *)
Definition collisionOps : list Op :=
  [ OpSubscribe (KeyArray ["bar"]) "cbA" 1;
    OpSubscribe (KeyArray ["bar"]) "cbB" 2;
    OpUnsubscribe "listener-id-0-1";
    OpSubscribe (KeyArray ["bar"]) "cbC" 2 ].

Definition collisionWorld : World :=
  execAll collisionOps (construct (JsObject sampleDefaults) noOptions newWorld).2.

(** ** Further definitions for the properties of the whole class *)


(** The calls of the three level writes. *)
Definition writeLevel (l : CONFIGLEVEL) (conf : IConfig) (override : bool) : M unit :=
  match l with
  | ENVIRONMENT => setEnvironmentConfig conf override
  | BACKEND => setBackendConfig conf override
  | USER => setUserConfig conf override
  | _ => mret tt
  end.

(** The levels a level write can address. *)
Definition writable (l : CONFIGLEVEL) : bool :=
  match l with ENVIRONMENT | BACKEND | USER => true | _ => false end.

(** The levels strictly above a level, highest first. *)
Definition above (l : CONFIGLEVEL) : list CONFIGLEVEL :=
  match l with
  | DEFAULT => [DYNAMIC; USER; BACKEND; ENVIRONMENT]
  | ENVIRONMENT => [DYNAMIC; USER; BACKEND]
  | BACKEND => [DYNAMIC; USER]
  | USER => [DYNAMIC]
  | DYNAMIC => []
  end.

(** Whether a store above the level contains the key. *)
Definition shadowed (c : Configuration) (l : CONFIGLEVEL) (key : string) : bool :=
  match firstContaining c key (above l) with Some _ => true | None => false end.

(** What a level write at [l] accepts of the mapping it is given. *)
Definition accepted (o : IConfigurationOptions) (l : CONFIGLEVEL) (conf : IConfig) : IConfig :=
  match l with USER => filteredConfig o conf | _ => conf end.

(** Two states of the fields that differ at most in the listeners and the
    timeout handle. *)
Definition sameCore (c c' : Configuration) : Prop :=
  options c' = options c
  ∧ (∀ l, store c' l = store c l)
  ∧ config c' = config c
  ∧ changedKeysBuffer c' = changedKeysBuffer c.

(** The calls that rebuild the configuration. *)
Definition rebuilds (op : Op) (w : World) : Prop :=
  match op with
  | OpSetConfig key val => (setConfig key val w).1 = Ok true
  | OpDeleteConfig _ | OpSetEnvironmentConfig _ _ | OpSetBackendConfig _ _
  | OpSetUserConfig _ _ => True
  | _ => False
  end.

(** The sample instance with one more listener, registered without keys. *)
Definition watchedWorld : World :=
  (subscribe (KeyArray []) "onAny" 1 sampleWorld).2.

(** ** The refresh loop *)

(** At most one timeout is pending, and its handle is the recorded one. *)
Definition singleLoop (w : World) : Prop :=
  match timers w with
  | [] => True
  | [(h, _)] => backendUpdateTimeout (this w) = Some h
  | _ => False
  end.

(** The calls during which nothing else runs: every call but the pieces of
    an invocation of the refresh loop taken apart. *)
Definition atomic (op : Op) : bool :=
  match op with
  | OpTimerElapses _ | OpFetchIssued | OpFetchSettles _ => false
  | _ => true
  end.

(** The BACKEND store after an invocation of the refresh loop. *)
Definition refreshed (c : Configuration) (fetch : FetchOutcome) : IConfig :=
  match fetched fetch with
  | Some r => builtObjects (options c) BACKEND r
  | None => backendConfig c
  end.

(** The sample instance with a backend update function, the loop not yet
    started. *)
Definition idleWorld : World :=
  (construct (JsObject sampleDefaults) loopOptions newWorld).2.

(** The invocations the loop makes by itself, given what the fetches to come
    return: it goes on until a fetch fails. *)
Fixpoint invocations (fetches : list FetchOutcome) : nat :=
  match fetches with
  | [] => 0
  | Resolved _ :: rest => S (invocations rest)
  | Rejected _ :: _ => 1
  end.

Definition resolves (fetch : FetchOutcome) : bool :=
  match fetch with Resolved _ => true | Rejected _ => false end.


(** ** The static side of the class *)

(** The objects of the class made so far, each in its surroundings, and the
    static [Configuration.instance]: the position of an object, [None] being
    [null]. *)
Record Program : Type := mkProgram {
  objects : list World;
  instance : option nat;
}.

Definition newProgram : Program := mkProgram [] None.

(** [!!v] for what can stand for the default values. *)
Definition isTruthy (v : JsValue) : bool :=
  match v with
  | JsUndefined | JsNull => false
  | JsBoolean b => b
  | JsNumber n => negb (Z.eqb n 0)
  | JsString s => negb (String.eqb s "")
  | JsObject _ => true
  end.

(** [new Configuration(defaultConfig, options)]: the position of the object
    the expression evaluates to. When the constructor throws, no object is
    made and the static is as before. *)
Definition newConfiguration (defaultConfig0 : JsValue) (opts : PartialOptions) (p : Program)
    : Result nat * Program :=
  let made :=
    match construct defaultConfig0 opts newWorld with
    | (Ok _, w) =>
        let i := length (objects p) in
        (Ok i, mkProgram (objects p ++ [w])
                 (if singleton (options (this w)) then Some i else instance p))
    | (Throw e, _) => (Throw e, p)
    end in
  match instance p with
  | Some i => if default false (p_singleton opts) then (Ok i, p) else made
  | None => made
  end.

(** [{ ...options, singleton: true }]. *)
Definition withSingleton (opts : PartialOptions) : PartialOptions :=
  mkPartialOptions (Some true) (p_backendUpdateFn opts) (p_backendUpdateIntervalMs opts)
    (p_backendUpdateStartImmediate opts) (p_readOnlyKeys opts).


(** The static methods. An argument left out is [undefined], options left
    out are [noOptions]. *)
Module Static.

Definition getValue (key : string) (p : Program) : Result (option ConfigValue) :=
  match instance p ≫= (objects p !!.) with
  | Some w =>
      match config (this w) with
      | Some _ => (getValue key w).1
      | None => Throw (ConfigurationError ERRORCODES.NO_CONFIGURATION_INSTANCE None)
      end
  | None => Throw (ConfigurationError ERRORCODES.NO_CONFIGURATION_INSTANCE None)
  end.

Definition getConfigs (p : Program) : Result IConfig :=
  match instance p ≫= (objects p !!.) with
  | Some w =>
      match config (this w) with
      | Some cfg => Ok cfg
      | None => Throw (ConfigurationError ERRORCODES.NO_CONFIGURATION_INSTANCE None)
      end
  | None => Throw (ConfigurationError ERRORCODES.NO_CONFIGURATION_INSTANCE None)
  end.

Definition getInstance (defaultConfig0 : JsValue) (opts : PartialOptions) (p : Program)
    : Result nat * Program :=
  match instance p with
  | None =>
      if negb (isTruthy defaultConfig0)
      then (Throw (ConfigurationError ERRORCODES.INSTANCE_NEEDS_DEFAULTCONFIGS None), p)
      else
        match newConfiguration defaultConfig0 (withSingleton opts) p with
        | (Ok i, p') => (Ok i, mkProgram (objects p') (Some i))
        | (Throw e, p') => (Throw e, p')
        end
  | Some i => (Ok i, p)
  end.

Definition clearInstance (p : Program) : Program := mkProgram (objects p) None.

End Static.

(** The static names an object that exists. *)
Definition registered (p : Program) : Prop :=
  ∀ i, instance p = Some i → is_Some (objects p !! i).

(** ** The React adapter *)


(** * Proofs *)

(** A decidable proposition about given data, settled by evaluation. *)
Ltac by_compute :=
  match goal with |- ?P => refine (@bool_decide_unpack P _ _); vm_compute; exact I end.

(** ** Running the methods *)

Lemma bind_run {A B : Type} (m : M A) (f : A → M B) (w : World) :
  (m ≫= f) w = match m w with (Ok a, w') => f a w' | (Throw e, w') => (Throw e, w') end.
Proof. reflexivity. Qed.

Lemma bind_run_ok {A B : Type} (m : M A) (f : A → M B) (w w' : World) (a : A) :
  m w = (Ok a, w') → (m ≫= f) w = f a w'.
Proof. intros H. rewrite bind_run, H. reflexivity. Qed.

Lemma ret_run {A : Type} (a : A) (w : World) : mret (M:=M) a w = (Ok a, w).
Proof. reflexivity. Qed.

Lemma throw_run {A : Type} (e : JsError) (w : World) : throw (A:=A) e w = (Throw e, w).
Proof. reflexivity. Qed.

Lemma getThis_run (w : World) : getThis w = (Ok (this w), w).
Proof. reflexivity. Qed.

Lemma modify_run (f : Configuration → Configuration) (w : World) :
  modify f w = (Ok tt, mkWorld (f (this w)) (notified w) (timers w) (timerSeq w)).
Proof. reflexivity. Qed.

Lemma world_eta (w : World) : mkWorld (this w) (notified w) (timers w) (timerSeq w) = w.
Proof. by destruct w. Qed.

Lemma buildConfigurationObjects_run (s : IConfig) (l : CONFIGLEVEL) (w : World) :
  buildConfigurationObjects (JsObject s) l w = (Ok (builtObjects (options (this w)) l s), w).
Proof. reflexivity. Qed.

Lemma built_lookup (o : IConfigurationOptions) (l : CONFIGLEVEL) (s : IConfig) (key : string) :
  builtObjects o l s !! key = buildConfigurationObject o l key <$> s !! key.
Proof. unfold builtObjects. rewrite map_lookup_imap. by destruct (s !! key). Qed.

Lemma triggerListener_run (l : IListener) (w : World) (cfg : IConfig) :
  config (this w) = Some cfg →
  triggerListener l w
  = (Ok tt, mkWorld (this w)
              (notified w ++ listenerCalls cfg (changedKeysBuffer (this w)) l)
              (timers w) (timerSeq w)).
Proof.
  intros Hc. unfold triggerListener, listenerCalls.
  rewrite bind_run, getThis_run, Hc.
  destruct (Nat.eqb (length (keys l)) 0); [reflexivity|].
  destruct (Nat.ltb 0 _); [reflexivity|].
  rewrite app_nil_r. by destruct w.
Qed.

Lemma forEach_triggerListener_run (ls : list IListener) (w : World) (cfg : IConfig) :
  config (this w) = Some cfg →
  forEach ls triggerListener w
  = (Ok tt, mkWorld (this w)
              (notified w ++ concat (map (listenerCalls cfg (changedKeysBuffer (this w))) ls))
              (timers w) (timerSeq w)).
Proof.
  revert w. induction ls as [|l ls IH]; intros w Hc; simpl.
  - rewrite app_nil_r. by destruct w.
  - rewrite (bind_run_ok _ _ _ _ _ (triggerListener_run l w cfg Hc)).
    rewrite IH by exact Hc. simpl. by rewrite app_assoc.
Qed.

Lemma triggerListeners_run (w : World) (cfg : IConfig) :
  config (this w) = Some cfg →
  triggerListeners w
  = (Ok tt, mkWorld (set_changedKeysBuffer ∅ (this w))
              (notified w
                 ++ concat (map (listenerCalls cfg (changedKeysBuffer (this w)))
                              (listeners (this w))))
              (timers w) (timerSeq w)).
Proof.
  intros Hc. unfold triggerListeners.
  rewrite bind_run, getThis_run, Hc.
  rewrite (bind_run_ok _ _ _ _ _ (forEach_triggerListener_run _ w cfg Hc)).
  reflexivity.
Qed.

Lemma forEach_addKeys_run (newConf : IConfig) (oldConf : option IConfig) (ks : list string)
    (w : World) :
  forEach ks (λ key,
    modify (λ c, set_changedKeysBuffer ({[key]} ∪ changedKeysBuffer c) c);;
    if bool_decide (is_Some oldConf) && negb (bool_decide (is_Some (newConf !! key)))
    then modify (λ c, set_changedKeysBuffer ({[key]} ∪ changedKeysBuffer c) c)
    else mret tt) w
  = (Ok tt, mkWorld (set_changedKeysBuffer (list_to_set ks ∪ changedKeysBuffer (this w)) (this w))
              (notified w) (timers w) (timerSeq w)).
Proof.
  revert w. induction ks as [|key ks IH]; intros w; simpl.
  - rewrite (left_id_L ∅ (∪)). by destruct w as [[] ? ? ?].
  - rewrite bind_run, bind_run, modify_run.
    destruct (bool_decide (is_Some oldConf) && negb (bool_decide (is_Some (newConf !! key)))).
    + rewrite modify_run, IH.
      destruct w as [c ? ? ?]; destruct c; unfold set_changedKeysBuffer; simpl.
      do 3 f_equal. apply set_eq. intros k. rewrite !elem_of_union. tauto.
    + rewrite ret_run, IH.
      destruct w as [c ? ? ?]; destruct c; unfold set_changedKeysBuffer; simpl.
      do 3 f_equal. apply set_eq. intros k. rewrite !elem_of_union. tauto.
Qed.

(** Only the keys of the new object reach the buffer, with or without an
    old object. *)
Lemma updateChangedKeysBuffer_run (newConf : IConfig) (oldConf : option IConfig) (w : World) :
  updateChangedKeysBufferWithPartialConfig newConf oldConf w
  = (Ok tt, mkWorld (set_changedKeysBuffer (dom newConf ∪ changedKeysBuffer (this w)) (this w))
              (notified w) (timers w) (timerSeq w)).
Proof.
  unfold updateChangedKeysBufferWithPartialConfig. rewrite forEach_addKeys_run.
  do 3 f_equal. f_equal. apply leibniz_equiv. symmetry. apply dom_alt.
Qed.

(** A rebuild never throws. *)
Lemma buildConfig_run (w : World) : buildConfig w = (Ok tt, written (this w) w).
Proof.
  unfold buildConfig, buildDefaultValues.
  rewrite bind_run, getThis_run.
  rewrite bind_run, buildConfigurationObjects_run.
  rewrite bind_run, buildConfigurationObjects_run.
  rewrite bind_run, buildConfigurationObjects_run.
  rewrite bind_run, buildConfigurationObjects_run.
  rewrite bind_run, buildConfigurationObjects_run.
  rewrite bind_run, modify_run.
  unfold resetReadOnlyFlags. rewrite 2!bind_run, getThis_run.
  cbn [this config set_config options notified timers timerSeq].
  rewrite modify_run.
  destruct w as [c n t q]. cbn [this notified timers timerSeq] in *.
  destruct c as [o d e b u y ch cf ls h].
  unfold set_config in *. cbn [options config] in *.
  erewrite triggerListeners_run by reflexivity.
  reflexivity.
Qed.

Lemma buildConfig_written (c1 : Configuration) (w : World) :
  buildConfig (mkWorld c1 (notified w) (timers w) (timerSeq w)) = (Ok tt, written c1 w).
Proof. by rewrite buildConfig_run. Qed.

Lemma getConfig_run (key : string) (w : World) (cfg : IConfig) :
  config (this w) = Some cfg → getConfig key w = (Ok (cfg !! key), w).
Proof.
  intros Hc. unfold getConfig. rewrite bind_run, getThis_run, Hc.
  destruct (cfg !! key) as [[| | |[]]|]; reflexivity.
Qed.

Lemma setConfig_not_built (key : string) (val : ConfigValue) (w : World) :
  config (this w) = None →
  setConfig key val w
  = (Throw (ConfigurationError ERRORCODES.CONFIGURATIONS_NOT_BUILT_YET None), w).
Proof. intros Hc. unfold setConfig. by rewrite bind_run, getThis_run, Hc. Qed.

(** The three ways [setConfig] ends on a built configuration. *)
Lemma setConfig_run (key : string) (val : ConfigValue) (w : World) (cfg : IConfig) :
  config (this w) = Some cfg →
  setConfig key val w
  = if negb (truthy (cfg !! key))
    then (Throw (ConfigurationError ERRORCODES.UNKNOWN_CONFIG_KEY None), w)
    else if isReadOnlyKey (options (this w)) key then (Ok false, w)
    else (Ok true, written (setConfig_fields key (dynamicCell (cfg !! key) val) (this w)) w).
Proof.
  intros Hc. unfold setConfig.
  rewrite bind_run, getThis_run, Hc.
  rewrite (bind_run_ok _ _ _ _ _ (getConfig_run key w _ Hc)).
  destruct (negb (truthy (cfg !! key))); [reflexivity|].
  destruct (isReadOnlyKey (options (this w)) key); [reflexivity|].
  rewrite bind_run.
  assert (∀ cell,
    (modify (λ c, set_dynamicConfig (<[key := cell]> (dynamicConfig c)) c) ≫= λ _,
       modify (λ c, set_changedKeysBuffer ({[key]} ∪ changedKeysBuffer c) c) ≫= λ _,
       buildConfig ≫= λ _, mret true) w
    = (Ok true, written (setConfig_fields key cell (this w)) w)) as Hrun.
  { intros cell. rewrite bind_run, modify_run, bind_run, modify_run, bind_run.
    cbn [this notified timers timerSeq].
    match goal with
    | |- context [buildConfig ?x] =>
        change (buildConfig x)
          with (buildConfig (mkWorld (setConfig_fields key cell (this w))
                               (notified w) (timers w) (timerSeq w)))
    end.
    by rewrite buildConfig_written. }
  destruct (cfg !! key) as [[| | |o]|]; cbn [dynamicCell]; try apply Hrun.
  destruct (decide (level o = DEFAULT)); cbn [level readonly value]; apply Hrun.
Qed.

Lemma deleteConfig_run (key : string) (w : World) :
  deleteConfig key w = (Ok tt, written (deleteConfig_fields key (this w)) w).
Proof.
  unfold deleteConfig.
  rewrite bind_run, modify_run, bind_run, modify_run.
  cbn [this notified timers timerSeq].
  exact (buildConfig_written _ w).
Qed.

Ltac run_level_write fields :=
  rewrite bind_run, getThis_run, bind_run;
  rewrite bind_run, buildConfigurationObjects_run, bind_run, modify_run,
    updateChangedKeysBuffer_run;
  cbn [this notified timers timerSeq];
  match goal with
  | w : World |- context [buildConfig ?x] =>
      change (buildConfig x)
        with (buildConfig (mkWorld fields (notified w) (timers w) (timerSeq w)))
  end;
  by rewrite buildConfig_written.

Lemma setEnvironmentConfig_run (conf : IConfig) (override : bool) (w : World) :
  setEnvironmentConfig conf override w
  = (Ok tt, written (setEnvironmentConfig_fields conf override (this w)) w).
Proof.
  unfold setEnvironmentConfig. destruct override.
  - run_level_write (setEnvironmentConfig_fields conf true (this w)).
  - run_level_write (setEnvironmentConfig_fields conf false (this w)).
Qed.

Lemma setBackendConfig_run (conf : IConfig) (override : bool) (w : World) :
  setBackendConfig conf override w
  = (Ok tt, written (setBackendConfig_fields conf override (this w)) w).
Proof.
  unfold setBackendConfig. destruct override.
  - run_level_write (setBackendConfig_fields conf true (this w)).
  - run_level_write (setBackendConfig_fields conf false (this w)).
Qed.

Lemma setUserConfig_run (conf : IConfig) (override : bool) (w : World) :
  setUserConfig conf override w
  = (Ok tt, written (setUserConfig_fields conf override (this w)) w).
Proof.
  unfold setUserConfig. destruct override.
  - run_level_write (setUserConfig_fields conf true (this w)).
  - run_level_write (setUserConfig_fields conf false (this w)).
Qed.

Lemma settle_rejected (error : JsError) (w : World) :
  runBackendAutoUpdate_settle (Rejected error) w
  = (Throw (ConfigurationError ERRORCODES.BACKEND_UPDATE_FAILED (Some error)), w).
Proof. reflexivity. Qed.

Lemma settle_nothing (res : option IConfig) (w : World) :
  fetched (Resolved res) = None →
  runBackendAutoUpdate_settle (Resolved res) w = (Ok tt, scheduled w).
Proof.
  intros Hf. unfold runBackendAutoUpdate_settle, tryCatch.
  rewrite bind_run, bind_run, ret_run.
  destruct res as [r|]; simpl in Hf.
  - destruct (Nat.ltb 0 (size r)); [done|]. reflexivity.
  - reflexivity.
Qed.

Lemma settle_written (r : IConfig) (fetch : FetchOutcome) (w : World) :
  fetched fetch = Some r →
  runBackendAutoUpdate_settle fetch w
  = (Ok tt, scheduled (written (setBackendConfig_fields r true (this w)) w)).
Proof.
  intros Hf. destruct fetch as [[r'|]|]; simpl in Hf; try done.
  destruct (Nat.ltb 0 (size r')) eqn:Hsz; [|done]. injection Hf as ->.
  unfold runBackendAutoUpdate_settle, tryCatch.
  rewrite bind_run, bind_run, ret_run, Hsz, (setBackendConfig_run r true w).
  reflexivity.
Qed.

Lemma fetched_Some (res : option IConfig) (r : IConfig) :
  fetched (Resolved res) = Some r → res = Some r.
Proof.
  destruct res as [r'|]; simpl; [|done]. destruct (Nat.ltb 0 (size r')); congruence.
Qed.

Lemma construct_run (props : IConfig) (opts : PartialOptions) :
  construct (JsObject props) opts newWorld
  = (Ok tt, written (construct_fields props opts) newWorld).
Proof.
  unfold construct, buildDefaultValues.
  rewrite bind_run, modify_run, bind_run, buildConfigurationObjects_run, bind_run, modify_run.
  cbn [this notified timers timerSeq].
  rewrite bind_run.
  match goal with
  | |- context [buildConfig ?x] =>
      change (buildConfig x)
        with (buildConfig (mkWorld (construct_fields props opts)
                             (notified newWorld) (timers newWorld) (timerSeq newWorld)))
  end.
  rewrite buildConfig_written, bind_run, getThis_run.
  destruct (backendUpdateFn _ && backendUpdateStartImmediate _) eqn:Hb; [|reflexivity].
  apply andb_true_iff in Hb as [Hf _].
  unfold detached, runBackendAutoUpdate_issue.
  rewrite bind_run, getThis_run, Hf. reflexivity.
Qed.

(** ** The invariant *)

Lemma built_storeOK_id (o : IConfigurationOptions) (l : CONFIGLEVEL) (s : IConfig) :
  storeOK o l s → builtObjects o l s = s.
Proof.
  intros Hs. apply map_eq. intros key. rewrite built_lookup.
  destruct (s !! key) as [v|] eqn:E; [|done].
  destruct (Hs key v E) as [x ->]. reflexivity.
Qed.

Lemma built_plain_storeOK (o : IConfigurationOptions) (l : CONFIGLEVEL) (conf : IConfig) :
  plainConfig conf → storeOK o l (builtObjects o l conf).
Proof.
  intros Hp key v. rewrite built_lookup.
  destruct (conf !! key) as [x|] eqn:E; [|done].
  intros [= <-]. specialize (Hp key x E). simpl in Hp.
  exists x. by destruct x.
Qed.

Lemma storeOK_union (o : IConfigurationOptions) (l : CONFIGLEVEL) (s1 s2 : IConfig) :
  storeOK o l s1 → storeOK o l s2 → storeOK o l (s1 ∪ s2).
Proof.
  intros H1 H2 key v. rewrite lookup_union_Some_raw.
  intros [E|[_ E]]; [exact (H1 key v E)|exact (H2 key v E)].
Qed.

Lemma plainConfig_filtered (o : IConfigurationOptions) (conf : IConfig) :
  plainConfig conf → plainConfig (filteredConfig o conf).
Proof.
  intros Hp key v E. apply map_lookup_filter_Some in E. exact (Hp key v (proj1 E)).
Qed.

Lemma overlay_storeOK (c : Configuration) (key : string) (v : ConfigValue) :
  storesOK c →
  overlay c !! key = Some v →
  ∃ x l, v = VObject (mkObject x l (Some (isReadOnlyKey (options c) key))).
Proof.
  intros Hs. unfold overlay. rewrite !lookup_union_Some_raw.
  intros [[[[E|[_ E]]|[_ E]]|[_ E]]|[_ E]].
  - destruct (Hs DYNAMIC key v E) as [x ->]. eauto.
  - destruct (Hs USER key v E) as [x ->]. eauto.
  - destruct (Hs BACKEND key v E) as [x ->]. eauto.
  - destruct (Hs ENVIRONMENT key v E) as [x ->]. eauto.
  - destruct (Hs DEFAULT key v E) as [x ->]. eauto.
Qed.

(** Between two calls a rebuild changes no cell: the built configuration is
    the stores laid over one another. The writes the source makes through
    the shared cells (the level in [buildConfigurationObjects], the flag in
    [resetReadOnlyFlags]) write what the cells already hold. *)
Lemma builtConfig_overlay (c : Configuration) : storesOK c → builtConfig c = overlay c.
Proof.
  intros Hs. unfold builtConfig.
  pose proof (built_storeOK_id _ _ _ (Hs DEFAULT)) as Hd.
  pose proof (built_storeOK_id _ _ _ (Hs ENVIRONMENT)) as He.
  pose proof (built_storeOK_id _ _ _ (Hs BACKEND)) as Hb.
  pose proof (built_storeOK_id _ _ _ (Hs USER)) as Hu.
  pose proof (built_storeOK_id _ _ _ (Hs DYNAMIC)) as Hy.
  simpl in Hd, He, Hb, Hu, Hy. rewrite Hd, He, Hb, Hu, Hy. fold (overlay c).
  apply map_eq. intros key. rewrite map_lookup_imap.
  destruct (overlay c !! key) as [v|] eqn:E; [|done]. simpl.
  destruct (overlay_storeOK c key v Hs E) as (x & l & ->).
  unfold resetReadOnlyFlag. by destruct (isReadOnlyKey (options c) key) eqn:R.
Qed.

Lemma wf_written (c1 : Configuration) (w : World) : storesOK c1 → wf (written c1 w).
Proof.
  intros Hs. split.
  - intros l. specialize (Hs l). by destruct l.
  - simpl. by rewrite builtConfig_overlay.
  - reflexivity.
Qed.

Lemma overlay_truthy (c : Configuration) (key : string) :
  storesOK c → truthy (overlay c !! key) = bool_decide (is_Some (overlay c !! key)).
Proof.
  intros Hs. destruct (overlay c !! key) as [v|] eqn:E.
  - destruct (overlay_storeOK c key v Hs E) as (x & l & ->). reflexivity.
  - reflexivity.
Qed.

Lemma setConfig_unknown (key : string) (val : ConfigValue) (w : World) :
  wf w → overlay (this w) !! key = None →
  setConfig key val w = (Throw (ConfigurationError ERRORCODES.UNKNOWN_CONFIG_KEY None), w).
Proof. intros [Hs Hc Hb] Hk. by rewrite (setConfig_run _ _ _ _ Hc), Hk. Qed.

Lemma setConfig_readonly (key : string) (val : ConfigValue) (w : World) :
  wf w → is_Some (overlay (this w) !! key) →
  isReadOnlyKey (options (this w)) key = true →
  setConfig key val w = (Ok false, w).
Proof.
  intros [Hs Hc Hb] Hk Hr.
  by rewrite (setConfig_run _ _ _ _ Hc), (overlay_truthy _ _ Hs), (bool_decide_eq_true_2 _ Hk), Hr.
Qed.

Lemma setConfig_written (key : string) (val : ConfigValue) (w : World) :
  wf w → is_Some (overlay (this w) !! key) →
  isReadOnlyKey (options (this w)) key = false →
  setConfig key val w
  = (Ok true, written (setConfig_fields key (VObject (mkObject val DYNAMIC (Some false)))
                         (this w)) w).
Proof.
  intros [Hs Hc Hb] Hk Hr.
  rewrite (setConfig_run _ _ _ _ Hc), (overlay_truthy _ _ Hs), (bool_decide_eq_true_2 _ Hk), Hr.
  destruct Hk as [v Hv]. rewrite Hv.
  by destruct (overlay_storeOK _ key v Hs Hv) as (x & l & ->).
Qed.

Lemma setConfig_fields_storesOK (key : string) (val : ConfigValue) (c : Configuration) :
  storesOK c → isReadOnlyKey (options c) key = false →
  storesOK (setConfig_fields key (VObject (mkObject val DYNAMIC (Some false))) c).
Proof.
  intros Hs Hr l. specialize (Hs l). destruct l; try exact Hs.
  simpl. apply map_Forall_insert_2; [|exact Hs].
  exists val. by rewrite Hr.
Qed.

Lemma deleteConfig_fields_storesOK (key : string) (c : Configuration) :
  storesOK c → storesOK (deleteConfig_fields key c).
Proof.
  intros Hs l. specialize (Hs l). destruct l; try exact Hs.
  simpl. by apply map_Forall_delete.
Qed.

Lemma setEnvironmentConfig_fields_storesOK (conf : IConfig) (override : bool)
    (c : Configuration) :
  storesOK c → plainConfig conf → storesOK (setEnvironmentConfig_fields conf override c).
Proof.
  intros Hs Hp l. pose proof (Hs l) as Hl. destruct l; try exact Hl.
  simpl. destruct override.
  - by apply built_plain_storeOK.
  - apply storeOK_union; [by apply built_plain_storeOK|exact Hl].
Qed.

Lemma setBackendConfig_fields_storesOK (conf : IConfig) (override : bool) (c : Configuration) :
  storesOK c → plainConfig conf → storesOK (setBackendConfig_fields conf override c).
Proof.
  intros Hs Hp l. pose proof (Hs l) as Hl. destruct l; try exact Hl.
  simpl. destruct override.
  - by apply built_plain_storeOK.
  - apply storeOK_union; [by apply built_plain_storeOK|exact Hl].
Qed.

Lemma setUserConfig_fields_storesOK (conf : IConfig) (override : bool) (c : Configuration) :
  storesOK c → plainConfig conf → storesOK (setUserConfig_fields conf override c).
Proof.
  intros Hs Hp l. pose proof (Hs l) as Hl. destruct l; try exact Hl.
  simpl. destruct override.
  - by apply built_plain_storeOK, plainConfig_filtered.
  - apply storeOK_union; [by apply built_plain_storeOK, plainConfig_filtered|exact Hl].
Qed.

Lemma construct_fields_storesOK (props : IConfig) (opts : PartialOptions) :
  plainConfig props → storesOK (construct_fields props opts).
Proof.
  intros Hp l. destruct l; simpl; try apply map_Forall_empty.
  by apply built_plain_storeOK.
Qed.

(** The invariant only speaks of the options, the stores, the built
    configuration and the buffer. *)
Lemma wf_core (w w' : World) :
  wf w →
  options (this w') = options (this w) →
  (∀ l, store (this w') l = store (this w) l) →
  config (this w') = config (this w) →
  changedKeysBuffer (this w') = changedKeysBuffer (this w) →
  wf w'.
Proof.
  intros [Hs Hc Hb] Ho Hst Hcf Hbf. split.
  - intros l. rewrite Ho, Hst. apply Hs.
  - rewrite Hcf, Hc. unfold overlay.
    pose proof (Hst DYNAMIC) as Hy. pose proof (Hst USER) as Hu.
    pose proof (Hst BACKEND) as Hk. pose proof (Hst ENVIRONMENT) as He.
    pose proof (Hst DEFAULT) as Hd. simpl in Hy, Hu, Hk, He, Hd.
    by rewrite Hy, Hu, Hk, He, Hd.
  - by rewrite Hbf.
Qed.

Lemma wf_scheduled (w : World) : wf w → wf (scheduled w).
Proof. intros Hw. by apply (wf_core w). Qed.

Lemma wf_settle (fetch : FetchOutcome) (w : World) :
  wf w → plainFetch fetch → wf (runBackendAutoUpdate_settle fetch w).2.
Proof.
  intros Hw Hp. destruct fetch as [res|error]; [|by rewrite settle_rejected].
  destruct (fetched (Resolved res)) as [r|] eqn:Hf.
  - pose proof (fetched_Some _ _ Hf) as ->.
    rewrite (settle_written r _ w Hf). simpl snd.
    apply wf_scheduled, wf_written.
    by apply setBackendConfig_fields_storesOK; [apply Hw|].
  - rewrite (settle_nothing _ _ Hf). by apply wf_scheduled.
Qed.

Lemma wf_clearTimeout (h : nat) (w : World) : wf w → wf (clearTimeout h w).2.
Proof. intros Hw. by apply (wf_core w). Qed.

Lemma wf_issue (w : World) : wf w → wf (runBackendAutoUpdate_issue w).2.
Proof.
  intros Hw. unfold runBackendAutoUpdate_issue. rewrite bind_run, getThis_run.
  destruct (negb (backendUpdateFn (options (this w)))); [done|].
  destruct (backendUpdateTimeout (this w)); [by apply wf_clearTimeout|done].
Qed.

Lemma wf_run (fetch : FetchOutcome) (w : World) :
  wf w → plainFetch fetch → wf (runBackendAutoUpdate fetch w).2.
Proof.
  intros Hw Hp. unfold runBackendAutoUpdate. rewrite bind_run.
  pose proof (wf_issue w Hw) as Hi.
  destruct (runBackendAutoUpdate_issue w) as [[[]|e] w1]; [|exact Hi].
  by apply wf_settle.
Qed.

Lemma wf_elapse (h : nat) (w : World) : wf w → wf (elapse h w).2.
Proof. intros Hw. by apply (wf_core w). Qed.

(** Every call keeps the invariant, whether it returns or throws. *)
Lemma wf_exec (op : Op) (w : World) : wf w → plainOp op → wf (exec op w).2.
Proof.
  intros Hw Hp. pose proof (wf_stores _ Hw) as Hs. destruct op; simpl in Hp; simpl exec.
  - rewrite bind_run.
    destruct (overlay (this w) !! key) as [v|] eqn:Hk.
    + destruct (isReadOnlyKey (options (this w)) key) eqn:Hr.
      * by rewrite setConfig_readonly.
      * rewrite setConfig_written by eauto. simpl.
        by apply wf_written, setConfig_fields_storesOK.
    + by rewrite setConfig_unknown.
  - rewrite deleteConfig_run. by apply wf_written, deleteConfig_fields_storesOK.
  - rewrite setEnvironmentConfig_run.
    by apply wf_written, setEnvironmentConfig_fields_storesOK.
  - rewrite setBackendConfig_run.
    by apply wf_written, setBackendConfig_fields_storesOK.
  - rewrite setUserConfig_run.
    by apply wf_written, setUserConfig_fields_storesOK.
  - by apply (wf_core w).
  - by apply (wf_core w).
  - rewrite bind_run. unfold startBackendAutoUpdate. rewrite bind_run, getThis_run.
    destruct (negb (backendUpdateFn (options (this w)))); [done|].
    destruct (bool_decide (is_Some (backendUpdateTimeout (this w)))
              && backendUpdateFn (options (this w))); [done|].
    destruct (backendUpdateFn (options (this w))); [|done].
    rewrite bind_run. pose proof (wf_run fetch w Hw Hp) as Hrun.
    by destruct (runBackendAutoUpdate fetch w) as [[[]|e] w1].
  - unfold stopBackendAutoUpdate. rewrite bind_run, getThis_run.
    destruct (backendUpdateTimeout (this w)); [|done].
    by apply (wf_core w).
  - unfold timerFires. case_bool_decide; [|done].
    rewrite bind_run. apply (wf_run fetch _ (wf_elapse h w Hw) Hp).
  - by apply wf_elapse.
  - by apply wf_issue.
  - by apply wf_settle.
Qed.

Lemma reachable_wf (w : World) : reachable w → wf w.
Proof.
  induction 1 as [defaults opts w Hp Hc|op w r w' _ IH Hp He].
  - rewrite construct_run in Hc. injection Hc as <-.
    by apply wf_written, construct_fields_storesOK.
  - pose proof (wf_exec op w IH Hp) as Hw. by rewrite He in Hw.
Qed.

(** ** Precedence of the levels *)

Lemma overlay_lookup (c : Configuration) (key : string) :
  overlay c !! key = cellFromHighestNonEmptyLevel c key.
Proof.
  unfold overlay, cellFromHighestNonEmptyLevel, highestLevel. rewrite !lookup_union. simpl.
  destruct (dynamicConfig c !! key) eqn:Ey, (userConfig c !! key) eqn:Eu,
    (backendConfig c !! key) eqn:Eb, (environmentConfig c !! key) eqn:Ee,
    (defaultConfig c !! key) eqn:Ed; simpl; rewrite ?Ey, ?Eu, ?Eb, ?Ee, ?Ed; reflexivity.
Qed.

Lemma highestLevel_store (c : Configuration) (key : string) (l : CONFIGLEVEL) :
  highestLevel c key = Some l → is_Some (store c l !! key).
Proof.
  unfold highestLevel. simpl.
  destruct (dynamicConfig c !! key) eqn:Ey; [intros [= <-]; simpl; rewrite Ey; eauto|].
  destruct (userConfig c !! key) eqn:Eu; [intros [= <-]; simpl; rewrite Eu; eauto|].
  destruct (backendConfig c !! key) eqn:Eb; [intros [= <-]; simpl; rewrite Eb; eauto|].
  destruct (environmentConfig c !! key) eqn:Ee; [intros [= <-]; simpl; rewrite Ee; eauto|].
  destruct (defaultConfig c !! key) eqn:Ed; [intros [= <-]; simpl; rewrite Ed; eauto|done].
Qed.

Lemma overlay_level (c : Configuration) (key : string) :
  storesOK c → overlay c !! key ≫= levelOf = highestLevel c key.
Proof.
  intros Hs. rewrite overlay_lookup. unfold cellFromHighestNonEmptyLevel.
  destruct (highestLevel c key) as [l|] eqn:Hl; [|done]. simpl.
  destruct (highestLevel_store c key l Hl) as [v Hv]. rewrite Hv.
  by destruct (Hs l key v Hv) as [x ->].
Qed.

(** With the key gone from the highest store that held it and the other
    stores as they were, the overlay shows the cell of the next store down. *)
Lemma overlay_falls_through (c c' : Configuration) (l : CONFIGLEVEL) (key : string) :
  highestLevel c key = Some l →
  store c' l !! key = None →
  (∀ l', l' ≠ l → store c' l' = store c l') →
  overlay c' !! key = cellFromNextLevel c l key.
Proof.
  intros Hh Hn Hsame.
  pose proof (Hsame DYNAMIC) as Hy. pose proof (Hsame USER) as Hu.
  pose proof (Hsame BACKEND) as Hb. pose proof (Hsame ENVIRONMENT) as He.
  pose proof (Hsame DEFAULT) as Hd. clear Hsame.
  rewrite overlay_lookup.
  unfold cellFromHighestNonEmptyLevel, cellFromNextLevel, highestLevel in *.
  destruct l; simpl in *;
    repeat match goal with
           | H : ?a ≠ ?a → _ |- _ => clear H
           | H : ?a ≠ ?b → _ |- _ => specialize (H ltac:(discriminate)); rewrite H
           end;
    rewrite Hn;
    repeat match goal with
           | H : context [match ?x !! key with _ => _ end] |- _ =>
               destruct (x !! key) eqn:?; simplify_eq
           end;
    repeat match goal with
           | |- context [match ?x !! key with _ => _ end] => destruct (x !! key) eqn:?
           end;
    simpl; rewrite ?Hy, ?Hu, ?Hb, ?He, ?Hd; congruence.
Qed.

Lemma frame_refl (w : World) : frame w w.
Proof. by repeat split. Qed.

Lemma frame_trans (w1 w2 w3 : World) : frame w1 w2 → frame w2 w3 → frame w1 w3.
Proof.
  intros (Ho & Hd & Hc) (Ho' & Hd' & Hc'). repeat split.
  - by rewrite Ho'. - by rewrite Hd'. - auto.
Qed.

Lemma frame_written (c1 : Configuration) (w : World) :
  options c1 = options (this w) → defaultConfig c1 = defaultConfig (this w) →
  frame w (written c1 w).
Proof. intros Ho Hd. repeat split; simpl; eauto. Qed.

Lemma frame_same (w w' : World) :
  options (this w') = options (this w) → defaultConfig (this w') = defaultConfig (this w) →
  config (this w') = config (this w) → frame w w'.
Proof. intros Ho Hd Hc. repeat split; try done. by rewrite Hc. Qed.

Lemma frame_settle (fetch : FetchOutcome) (w : World) :
  frame w (runBackendAutoUpdate_settle fetch w).2.
Proof.
  destruct fetch as [res|error]; [|apply frame_refl].
  destruct (fetched (Resolved res)) as [r|] eqn:Hf.
  - rewrite (settle_written r _ w Hf). simpl snd.
    apply (frame_trans _ (written (setBackendConfig_fields r true (this w)) w));
      [by apply frame_written|by apply frame_same].
  - rewrite (settle_nothing _ _ Hf). by apply frame_same.
Qed.

Lemma frame_issue (w : World) : frame w (runBackendAutoUpdate_issue w).2.
Proof.
  unfold runBackendAutoUpdate_issue. rewrite bind_run, getThis_run.
  destruct (negb (backendUpdateFn (options (this w)))); [apply frame_refl|].
  destruct (backendUpdateTimeout (this w)); [by apply frame_same|apply frame_refl].
Qed.

Lemma frame_run (fetch : FetchOutcome) (w : World) :
  frame w (runBackendAutoUpdate fetch w).2.
Proof.
  unfold runBackendAutoUpdate. rewrite bind_run.
  pose proof (frame_issue w) as Hi.
  destruct (runBackendAutoUpdate_issue w) as [[[]|e] w1]; [|exact Hi].
  eapply frame_trans; [exact Hi|apply frame_settle].
Qed.

(** No call touches the options or the DEFAULT store, and none takes the
    built configuration away, whatever its arguments. *)
Lemma frame_exec (op : Op) (w : World) : frame w (exec op w).2.
Proof.
  destruct op; simpl exec.
  - rewrite bind_run. destruct (config (this w)) as [cfg|] eqn:Hc.
    + rewrite (setConfig_run _ _ _ _ Hc).
      destruct (negb (truthy (cfg !! key))); [apply frame_refl|].
      destruct (isReadOnlyKey (options (this w)) key); [apply frame_refl|].
      by apply frame_written.
    + rewrite (setConfig_not_built _ _ _ Hc). apply frame_refl.
  - rewrite deleteConfig_run. by apply frame_written.
  - rewrite setEnvironmentConfig_run. by apply frame_written.
  - rewrite setBackendConfig_run. by apply frame_written.
  - rewrite setUserConfig_run. by apply frame_written.
  - by apply frame_same.
  - by apply frame_same.
  - rewrite bind_run. unfold startBackendAutoUpdate. rewrite bind_run, getThis_run.
    destruct (negb (backendUpdateFn (options (this w)))); [apply frame_refl|].
    destruct (bool_decide (is_Some (backendUpdateTimeout (this w)))
              && backendUpdateFn (options (this w))); [apply frame_refl|].
    destruct (backendUpdateFn (options (this w))); [|apply frame_refl].
    rewrite bind_run. pose proof (frame_run fetch w) as Hrun.
    by destruct (runBackendAutoUpdate fetch w) as [[[]|e] w1].
  - unfold stopBackendAutoUpdate. rewrite bind_run, getThis_run.
    destruct (backendUpdateTimeout (this w)); [|apply frame_refl].
    by apply frame_same.
  - unfold timerFires. case_bool_decide; [|apply frame_refl].
    rewrite bind_run. eapply frame_trans; [|apply frame_run]. by apply frame_same.
  - by apply frame_same.
  - apply frame_issue.
  - apply frame_settle.
Qed.


Lemma isPlainConfig_plain (conf : IConfig) : isPlainConfig conf = true → plainConfig conf.
Proof.
  unfold isPlainConfig. rewrite forallb_forall. intros H key val Hk.
  apply (H (key, val)). apply list_elem_of_In. by apply elem_of_map_to_list.
Qed.

Lemma isPlainOp_plain (op : Op) : isPlainOp op = true → plainOp op.
Proof.
  destruct op as [| |conf ?|conf ?|conf ?| | |[[r|]|]| |? [[r|]|]| | |[[r|]|]];
    simpl; try done; apply isPlainConfig_plain.
Qed.

Lemma reachable_execAll (ops : list Op) (w : World) :
  reachable w → forallb isPlainOp ops = true → reachable (execAll ops w).
Proof.
  revert w. induction ops as [|op ops IH]; intros w Hw Hp; simpl in *; [done|].
  apply andb_true_iff in Hp as [Hop Hops]. apply IH; [|done].
  apply (reachable_exec op w (exec op w).1); [done|by apply isPlainOp_plain|].
  by destruct (exec op w).
Qed.

Lemma sampleWorld_reachable : reachable sampleWorld.
Proof.
  apply reachable_execAll; [|vm_compute; reflexivity].
  apply (reachable_new sampleDefaults sampleOptions).
  - apply isPlainConfig_plain. vm_compute. reflexivity.
  - by rewrite construct_run.
Qed.



(** ** The read-only keys *)





(** The store a level write leaves, key by key. *)
Lemma level_store_lookup (o : IConfigurationOptions) (l : CONFIGLEVEL) (conf old : IConfig)
    (override : bool) (key : string) :
  (if override then builtObjects o l conf else builtObjects o l conf ∪ old) !! key
  = match conf !! key with
    | Some val => Some (buildConfigurationObject o l key val)
    | None => if override then None else old !! key
    end.
Proof.
  destruct override.
  - rewrite built_lookup. by destruct (conf !! key).
  - rewrite lookup_union, built_lookup. by destruct (conf !! key), (old !! key).
Qed.

Lemma filteredConfig_lookup (o : IConfigurationOptions) (conf : IConfig) (key : string) :
  filteredConfig o conf !! key = if isReadOnlyKey o key then None else conf !! key.
Proof.
  unfold filteredConfig. rewrite map_lookup_filter.
  destruct (conf !! key) as [v|]; simpl.
  - destruct (isReadOnlyKey o key) eqn:Hk.
    + case_guard as Hg; simpl in *; congruence.
    + case_guard as Hg; simpl in *; congruence.
  - by destruct (isReadOnlyKey o key).
Qed.

(** C4. [setUserConfig] never throws; the read-only keys of the mapping it
    is given do not reach the USER store (a read-only key keeps what the
    store held, or nothing after a replacing write), while every other
    supplied key is written to it. [setEnvironmentConfig] and
    [setBackendConfig] write every supplied key, read-only or not, to their
    store with the value as it was supplied. The values supplied are
    strings, numbers and booleans. *)
Theorem C4_read_only_keys_filtered_at_USER_only (w : World) (conf : IConfig) (override : bool) :
  plainConfig conf →
  let o := options (this w) in
  (setUserConfig conf override w).1 = Ok tt
  ∧ (∀ key, key ∈ readOnlyKeys o →
       userConfig (this (setUserConfig conf override w).2) !! key
       = if override then None else userConfig (this w) !! key)
  ∧ (∀ key val, key ∉ readOnlyKeys o → conf !! key = Some val →
       userConfig (this (setUserConfig conf override w).2) !! key
       = Some (VObject (mkObject val USER (Some false))))
  ∧ (∀ key val, conf !! key = Some val →
       environmentConfig (this (setEnvironmentConfig conf override w).2) !! key
       = Some (VObject (mkObject val ENVIRONMENT (Some (bool_decide (key ∈ readOnlyKeys o))))))
  ∧ (∀ key val, conf !! key = Some val →
       backendConfig (this (setBackendConfig conf override w).2) !! key
       = Some (VObject (mkObject val BACKEND (Some (bool_decide (key ∈ readOnlyKeys o)))))).
Proof.
  intros Hp o.
  assert (∀ l key val, conf !! key = Some val →
            buildConfigurationObject o l key val
            = VObject (mkObject val l (Some (bool_decide (key ∈ readOnlyKeys o))))) as Hcell.
  { intros l key val Hk. specialize (Hp key val Hk). simpl in Hp. by destruct val. }
  rewrite setUserConfig_run, setEnvironmentConfig_run, setBackendConfig_run. simpl.
  fold o. split; [done|]. split; [|split; [|split]].
  - intros key Hk. rewrite level_store_lookup, filteredConfig_lookup.
    unfold isReadOnlyKey. by rewrite bool_decide_eq_true_2.
  - intros key val Hk Hv. rewrite level_store_lookup, filteredConfig_lookup.
    unfold isReadOnlyKey at 1. rewrite bool_decide_eq_false_2 by done.
    rewrite Hv, (Hcell USER key val Hv). by rewrite bool_decide_eq_false_2.
  - intros key val Hv. by rewrite level_store_lookup, Hv, (Hcell _ _ _ Hv).
  - intros key val Hv. by rewrite level_store_lookup, Hv, (Hcell _ _ _ Hv).
Qed.

Lemma C4_read_only_keys_filtered_at_USER_only_witness :
  let conf : IConfig := {[ "foo" := VString "X"; "bar" := VNumber 7 ]} in
  plainConfig conf
  ∧ userConfig (this (setUserConfig conf false sampleWorld).2) !! "foo" = None
  ∧ userConfig (this (setUserConfig conf false sampleWorld).2) !! "bar"
    = Some (VObject (mkObject (VNumber 7) USER (Some false)))
  ∧ environmentConfig (this (setEnvironmentConfig conf false sampleWorld).2) !! "foo"
    = Some (VObject (mkObject (VString "X") ENVIRONMENT (Some true))).
Proof.
  intros conf.
  assert (plainConfig conf) as Hp by (apply isPlainConfig_plain; vm_compute; reflexivity).
  destruct (C4_read_only_keys_filtered_at_USER_only sampleWorld conf false Hp)
    as (_ & Hro & Huser & Henv & _).
  split; [exact Hp|]. split; [|split].
  - rewrite Hro; [vm_compute; reflexivity|]. by_compute.
  - apply Huser; [|vm_compute; reflexivity]. by_compute.
  - rewrite (Henv "foo" (VString "X")); vm_compute; reflexivity.
Defined.

(** ** Subscriptions *)

Lemma relevantChanges_lookup_from (cfg : IConfig) (changed : gset string) (ks : list string)
    (acc : Payload) (k : string) :
  foldl (λ acc key, if bool_decide (key ∈ changed) then <[key := cfg !! key]> acc else acc)
    acc ks !! k
  = if bool_decide (k ∈ filter (λ key, key ∈ changed) ks) then Some (cfg !! k) else acc !! k.
Proof.
  revert acc. induction ks as [|key ks IH]; intros acc; simpl.
  - done.
  - rewrite IH, filter_cons.
    destruct (decide (key ∈ changed)) as [Hc|Hc].
    + rewrite (bool_decide_eq_true_2 _ Hc).
      destruct (bool_decide (k ∈ filter (λ key0, key0 ∈ changed) ks)) eqn:Hin.
      * apply bool_decide_eq_true_1 in Hin.
        rewrite bool_decide_eq_true_2; [done|]. by apply list_elem_of_further.
      * apply bool_decide_eq_false_1 in Hin.
        destruct (decide (key = k)) as [->|Hne].
        -- rewrite lookup_insert_eq, bool_decide_eq_true_2; [done|]. apply list_elem_of_here.
        -- rewrite lookup_insert_ne by done. rewrite bool_decide_eq_false_2; [done|].
           rewrite elem_of_cons. intros [->|?]; done.
    + by rewrite (bool_decide_eq_false_2 _ Hc).
Qed.

Lemma relevantChanges_lookup (cfg : IConfig) (changed : gset string) (ks : list string)
    (k : string) :
  relevantChanges cfg changed ks !! k
  = if bool_decide (k ∈ filter (λ key, key ∈ changed) ks) then Some (cfg !! k) else None.
Proof. unfold relevantChanges. by rewrite relevantChanges_lookup_from, lookup_empty. Qed.

Lemma relevantChanges_empty (cfg : IConfig) (changed : gset string) (ks : list string) :
  relevantChanges cfg changed ks = ∅ ↔ filter (λ key, key ∈ changed) ks = [].
Proof.
  split.
  - intros He. destruct (filter _ ks) as [|k rest] eqn:Hf; [done|].
    pose proof (relevantChanges_lookup cfg changed ks k) as Hk.
    rewrite He, lookup_empty, Hf, bool_decide_eq_true_2 in Hk; [done|]. set_solver.
  - intros Hf. apply map_eq. intros k.
    rewrite relevantChanges_lookup, Hf, lookup_empty.
    rewrite bool_decide_eq_false_2; [done|]. apply not_elem_of_nil.
Qed.

(** What a listener with keys receives in a rebuild. *)
Lemma listenerCalls_keys (cfg : IConfig) (changed : gset string) (l : IListener) :
  keys l ≠ [] →
  listenerCalls cfg changed l
  = if bool_decide (filter (λ key, key ∈ changed) (keys l) = [])
    then [] else [mkCall (callback l) (relevantChanges cfg changed (keys l))].
Proof.
  intros Hk. unfold listenerCalls.
  destruct (keys l) as [|k ks] eqn:Hks; [done|]. simpl length. simpl Nat.eqb.
  rewrite <-Hks. clear Hks Hk.
  destruct (Nat.ltb 0 (size (relevantChanges cfg changed (keys l)))) eqn:Hsz.
  - rewrite bool_decide_eq_false_2; [done|].
    apply Nat.ltb_lt in Hsz. intros Hf.
    rewrite (proj2 (relevantChanges_empty cfg changed (keys l)) Hf), map_size_empty in Hsz. lia.
  - rewrite bool_decide_eq_true_2; [done|].
    apply Nat.ltb_ge in Hsz.
    apply (proj1 (relevantChanges_empty cfg changed (keys l))), map_size_empty_iff. lia.
Qed.


Lemma subscribe_run (ks : KeysArg) (cb : Callback) (rnd : nat) (w : World) :
  subscribe ks cb rnd w
  = (Ok (listenerId (this w) rnd),
     mkWorld (set_listeners (listeners (this w) ++ [newListener (this w) ks cb rnd]) (this w))
       (notified w) (timers w) (timerSeq w)).
Proof. reflexivity. Qed.






(** ** Notification follows writes *)

Lemma callsDuring_written (c1 : Configuration) (w : World) :
  callsDuring w (written c1 w) = announce c1.
Proof. unfold callsDuring. simpl. by rewrite drop_app_length. Qed.


(** Fields that differ from those of a well-formed instance in nothing but
    the buffer are, once rebuilt, those of the instance. *)
Lemma rebuilt_same (w : World) (c1 : Configuration) :
  wf w →
  options c1 = options (this w) →
  listeners c1 = listeners (this w) →
  backendUpdateTimeout c1 = backendUpdateTimeout (this w) →
  (∀ lv, store c1 lv = store (this w) lv) →
  rebuilt c1 = this w.
Proof.
  intros [Hs Hc Hb] Ho1 Hl1 Ht1 Hst. unfold rebuilt.
  assert (storesOK c1) as Hs1.
  { intros lv. rewrite Ho1, Hst. apply Hs. }
  rewrite builtConfig_overlay by done.
  unfold overlay in *.
  pose proof (Hst DEFAULT) as Hd. pose proof (Hst ENVIRONMENT) as He.
  pose proof (Hst BACKEND) as Hk. pose proof (Hst USER) as Hu.
  pose proof (Hst DYNAMIC) as Hy. simpl in Hd, He, Hk, Hu, Hy.
  destruct (this w), c1. simpl in *. by subst.
Qed.





(** ** The backend refresh loop after a failed fetch *)




Lemma runTimers_idle (fetches : list FetchOutcome) (w : World) :
  timers w = [] → runTimers fetches w = (0, w).
Proof. intros Ht. destruct fetches; simpl; [done|]. by rewrite Ht. Qed.



(** ** Construction *)

Lemma construct_run_any (defaults : JsValue) (opts : PartialOptions) :
  construct defaults opts newWorld
  = match ownProperties defaults with
    | Ok props => (Ok tt, written (construct_fields props opts) newWorld)
    | Throw e =>
        (Throw e,
         mkWorld (set_options (mergeOptions (options fieldInitialisers) opts) fieldInitialisers)
           [] [] 0)
    end.
Proof.
  destruct defaults as [| |b|n|s|o]; try reflexivity.
  - apply (construct_run ∅).
  - apply (construct_run ∅).
  - apply (construct_run (list_to_map (charsFrom 0 s))).
  - apply construct_run.
Qed.




(** ** The built configuration never goes away *)

Lemma constructed_built (w : World) : constructed w → is_Some (config (this w)).
Proof.
  induction 1 as [defaults opts w Hc|op w r w' _ IH He].
  - rewrite construct_run_any in Hc. destruct (ownProperties defaults); [|done].
    injection Hc as <-. simpl. eauto.
  - pose proof (frame_exec op w) as (_ & _ & Hk). rewrite He in Hk. auto.
Qed.

Lemma constructed_execAll (ops : list Op) (w : World) :
  constructed w → constructed (execAll ops w).
Proof.
  revert w. induction ops as [|op ops IH]; intros w Hw; simpl; [done|].
  apply IH. apply (constructed_exec op w (exec op w).1); [done|]. by destruct (exec op w).
Qed.

(** C9. An instance the constructor has made has its configuration built,
    and keeps it built after any sequence of calls, whatever their arguments
    and whether they return or throw: no call sets it back to [null]. So on
    such an instance [getConfig], [setConfig] and [getConfigsForLevel] never
    throw [CONFIGURATIONS_NOT_BUILT_YET]. (When the constructor hands back
    the singleton instead, that instance was made by an earlier call of the
    constructor.) *)
Theorem C9_configuration_stays_built
    (hasInstance : bool) (defaults : JsValue) (opts : PartialOptions)
    (w : World) (stored : bool) (ops : list Op) :
  constructor hasInstance defaults opts = Ok (NewInstance w stored) →
  let w' := execAll ops w in
  is_Some (config (this w'))
  ∧ (∀ key cause,
       (getConfig key w').1
       ≠ Throw (ConfigurationError ERRORCODES.CONFIGURATIONS_NOT_BUILT_YET cause))
  ∧ (∀ key val cause,
       (setConfig key val w').1
       ≠ Throw (ConfigurationError ERRORCODES.CONFIGURATIONS_NOT_BUILT_YET cause))
  ∧ (∀ lvl cause,
       (getConfigsForLevel lvl w').1
       ≠ Throw (ConfigurationError ERRORCODES.CONFIGURATIONS_NOT_BUILT_YET cause)).
Proof.
  intros Hnew w'.
  assert (constructed w) as Hw.
  { unfold constructor in Hnew.
    destruct (hasInstance && default false (p_singleton opts)); [done|].
    destruct (construct defaults opts newWorld) as [[[]|e] w0] eqn:Hc; [|done].
    injection Hnew as <- _. by apply (constructed_new defaults opts). }
  destruct (constructed_built w' (constructed_execAll ops w Hw)) as [cfg Hcfg].
  split; [by eexists|]. split; [|split].
  - intros key cause. by rewrite (getConfig_run _ _ _ Hcfg).
  - intros key val cause. rewrite (setConfig_run _ _ _ _ Hcfg).
    destruct (negb (truthy (cfg !! key))); [done|].
    by destruct (isReadOnlyKey (options (this w')) key).
  - intros lvl cause. unfold getConfigsForLevel. rewrite bind_run, getThis_run, Hcfg.
    by destruct lvl.
Qed.

Lemma C9_configuration_stays_built_witness :
  let w := (construct (JsObject sampleDefaults) sampleOptions newWorld).2 in
  constructor false (JsObject sampleDefaults) sampleOptions = Ok (NewInstance w false)
  ∧ is_Some (config (this (execAll sampleOps w))).
Proof.
  intros w.
  assert (constructor false (JsObject sampleDefaults) sampleOptions = Ok (NewInstance w false))
    as Hnew by (vm_compute; reflexivity).
  split; [exact Hnew|].
  apply (C9_configuration_stays_built false (JsObject sampleDefaults) sampleOptions w false
           sampleOps Hnew).
Defined.

(** ** The static helpers *)

(** C10. For every original value, bare or wrapped with its meta data, and
    every string, number or boolean [v], reading with [helperGetValue] what
    [helperSetValue] has made of the original and [v] gives [v]. *)
Theorem C10_helpers_round_trip (original v : ConfigValue) :
  isScalar v = true → helperGetValue (helperSetValue original v) = Some v.
Proof.
  intros Hv. destruct original as [s|n|b|o]; simpl.
  - by destruct v.
  - by destruct v.
  - by destruct v.
  - by rewrite Hv.
Qed.

Lemma C10_helpers_round_trip_witness :
  isScalar (VBoolean false) = true
  ∧ helperGetValue
      (helperSetValue (VObject (mkObject (VString "x") USER (Some true))) (VBoolean false))
    = Some (VBoolean false).
Proof.
  split; [reflexivity|]. by apply C10_helpers_round_trip.
Defined.

(** ** Unsubscribing *)

Lemma unsubscribe_run (id0 : string) (w : World) :
  unsubscribe id0 w
  = (Ok tt, mkWorld (set_listeners (filter (λ l, id l ≠ id0) (listeners (this w))) (this w))
              (notified w) (timers w) (timerSeq w)).
Proof. reflexivity. Qed.

(** Calling the function returned by [subscribe] a second time right away
    changes nothing, and a registration with another identifier stays. *)
Lemma unsubscribe_twice (id0 : string) (w : World) :
  (unsubscribe id0 (unsubscribe id0 w).2).2 = (unsubscribe id0 w).2.
Proof.
  rewrite !unsubscribe_run. cbn [snd this notified timers timerSeq].
  unfold set_listeners. cbn. do 2 f_equal.
  induction (listeners (this w)) as [|l ls IH]; [done|].
  rewrite filter_cons. destruct (decide (id l ≠ id0)); [|done].
  by rewrite filter_cons, decide_True, IH.
Qed.

Lemma unsubscribe_keeps_others (id0 : string) (w : World) (l : IListener) :
  l ∈ listeners (this w) → id l ≠ id0 → l ∈ listeners (this (unsubscribe id0 w).2).
Proof. intros Hl Hne. rewrite unsubscribe_run. simpl. by apply list_elem_of_filter. Qed.

(** With identifiers that differ from one registration to the next, the
    function returned by [subscribe] removes its registration and no other. *)
Lemma unsubscribe_removes_its_own (w : World) (before after : list IListener) (l : IListener) :
  listeners (this w) = before ++ l :: after →
  NoDup (map id (listeners (this w))) →
  listeners (this (unsubscribe (id l) w).2) = before ++ after.
Proof.
  intros Hls Hnd. rewrite unsubscribe_run. simpl. rewrite Hls in Hnd |- *.
  rewrite map_app in Hnd. simpl in Hnd.
  apply NoDup_app in Hnd as (_ & Hb & Ha). apply NoDup_cons in Ha as [Ha _].
  assert (∀ ls : list IListener, id l ∉ map id ls → filter (λ l', id l' ≠ id l) ls = ls)
    as Hkeep.
  { induction ls as [|x ls IH]; [done|]. simpl. intros Hx.
    apply not_elem_of_cons in Hx as [Hx Hxs].
    by rewrite filter_cons, decide_True, IH by done. }
  rewrite filter_app, filter_cons, decide_False by auto.
  rewrite (Hkeep after Ha), (Hkeep before); [done|].
  intros Hin. apply (Hb _ Hin). apply list_elem_of_here.
Qed.

(** C8 at an input where the code departs from it. The identifier of a
    registration is made of the number of listeners registered at the time
    and of a random number; the second and the third registration are both
    made with one listener registered and draw the same number, so they get
    the same identifier. Cancelling the second then removes the third as
    well, which is no longer called; and calling the cancelling function of
    the second once more, after a later registration has again received that
    identifier, removes that registration. *)
Theorem C8_unsubscribe_with_colliding_identifiers :
  map id (listeners (this collisionWorld)) = ["listener-id-1-2"; "listener-id-1-2"]
  ∧ map callback (listeners (this collisionWorld)) = ["cbB"; "cbC"]
  ∧ map callee (callsDuring collisionWorld (setConfig "bar" (VNumber 1) collisionWorld).2)
    = ["cbB"; "cbC"]
  ∧ (let cancelled := (unsubscribe "listener-id-1-2" collisionWorld).2 in
     listeners (this cancelled) = []
     ∧ callsDuring cancelled (setConfig "bar" (VNumber 1) cancelled).2 = []
     ∧ (let later :=
          execAll [ OpSubscribe (KeyArray ["foo"]) "cbD" 9;
                    OpSubscribe (KeyArray ["bar"]) "cbE" 2 ] cancelled in
        map callback (listeners (this later)) = ["cbD"; "cbE"]
        ∧ map callback (listeners (this (unsubscribe "listener-id-1-2" later).2)) = ["cbD"])).
Proof. repeat split; vm_compute; reflexivity. Qed.

(** * Further properties of the class *)

(** ** Reading and writing single keys *)


Lemma effective_overlay (w : World) (key : string) :
  wf w → effective (this w) key = overlay (this w) !! key.
Proof. intros Hw. unfold effective. by rewrite (wf_config _ Hw). Qed.



(** What is known when [setConfig] has returned [true]. *)
Lemma setConfig_true (w : World) (key : string) (val : ConfigValue) :
  wf w →
  (setConfig key val w).1 = Ok true →
  isReadOnlyKey (options (this w)) key = false
  ∧ setConfig key val w
    = (Ok true, written (setConfig_fields key (VObject (mkObject val DYNAMIC (Some false)))
                           (this w)) w).
Proof.
  intros Hw Hok. destruct (overlay (this w) !! key) as [v|] eqn:E.
  - destruct (isReadOnlyKey (options (this w)) key) eqn:Hro.
    + by rewrite setConfig_readonly in Hok.
    + split; [done|]. by rewrite setConfig_written by eauto.
  - by rewrite setConfig_unknown in Hok.
Qed.




(** X3. Setting a key that has no dynamic value and deleting it again leaves
    the instance as it was before the two calls: stores, configuration,
    buffer, listeners and timeout handle. *)
Theorem X3_setConfig_then_deleteConfig (w : World) (key : string) (val : ConfigValue) :
  reachable w →
  dynamicConfig (this w) !! key = None →
  (setConfig key val w).1 = Ok true →
  this (deleteConfig key (setConfig key val w).2).2 = this w.
Proof.
  intros Hr Hy Hok. pose proof (reachable_wf w Hr) as Hw.
  destruct (setConfig_true w key val Hw Hok) as [Hro Hrun].
  rewrite Hrun, deleteConfig_run. simpl. apply rebuilt_same; try done.
  intros l. destruct l; simpl; try done. by rewrite delete_insert_id.
Qed.

Lemma X3_setConfig_then_deleteConfig_witness :
  let w := (construct (JsObject sampleDefaults) sampleOptions newWorld).2 in
  reachable w
  ∧ dynamicConfig (this w) !! "bar" = None
  ∧ (setConfig "bar" (VNumber 5) w).1 = Ok true
  ∧ this (deleteConfig "bar" (setConfig "bar" (VNumber 5) w).2).2 = this w.
Proof.
  intros w.
  assert (reachable w) as Hr.
  { apply (reachable_new sampleDefaults sampleOptions).
    - apply isPlainConfig_plain. vm_compute. reflexivity.
    - by rewrite construct_run. }
  assert (dynamicConfig (this w) !! "bar" = None) as Hy by (vm_compute; reflexivity).
  assert ((setConfig "bar" (VNumber 5) w).1 = Ok true) as Hok by (vm_compute; reflexivity).
  split; [exact Hr|]. split; [exact Hy|]. split; [exact Hok|].
  exact (X3_setConfig_then_deleteConfig w "bar" (VNumber 5) Hr Hy Hok).
Defined.

(** ** Construction from the default values *)

Lemma effective_written (c1 : Configuration) (w : World) (key : string) :
  storesOK c1 → effective (this (written c1 w)) key = overlay c1 !! key.
Proof. intros Hs. unfold effective. simpl. by rewrite builtConfig_overlay. Qed.

Lemma plain_built (o : IConfigurationOptions) (l : CONFIGLEVEL) (key : string) (v : ConfigValue) :
  isScalar v = true →
  buildConfigurationObject o l key v = VObject (mkObject v l (Some (isReadOnlyKey o key))).
Proof. by destruct v. Qed.



(** ** Reading *)



(** ** The writes of a whole level *)

Lemma writeLevel_run (l : CONFIGLEVEL) (conf : IConfig) (override : bool) (w : World) :
  writable l = true →
  writeLevel l conf override w
  = (Ok tt,
     written (match l with
              | ENVIRONMENT => setEnvironmentConfig_fields conf override (this w)
              | BACKEND => setBackendConfig_fields conf override (this w)
              | _ => setUserConfig_fields conf override (this w)
              end) w).
Proof.
  destruct l; try done; intros _; simpl.
  - apply setEnvironmentConfig_run.
  - apply setBackendConfig_run.
  - apply setUserConfig_run.
Qed.

(** The fields a level write prepares for the rebuild. *)
Lemma level_write_overlay
    (c : Configuration) (l : CONFIGLEVEL) (conf : IConfig) (override : bool) (key : string) :
  plainConfig conf → writable l = true →
  overlay (match l with
           | ENVIRONMENT => setEnvironmentConfig_fields conf override c
           | BACKEND => setBackendConfig_fields conf override c
           | _ => setUserConfig_fields conf override c
           end) !! key
  = if shadowed c l key then overlay c !! key
    else match accepted (options c) l conf !! key with
         | Some v => Some (VObject (mkObject v l (Some (isReadOnlyKey (options c) key))))
         | None => if override then cellFromNextLevel c l key else overlay c !! key
         end.
Proof.
  intros Hp Hl.
  assert (∀ v, accepted (options c) l conf !! key = Some v → isScalar v = true) as Hsc.
  { intros v. destruct l; simpl; try apply (Hp key v).
    rewrite filteredConfig_lookup.
    destruct (isReadOnlyKey (options c) key); [done|apply (Hp key v)]. }
  unfold overlay, shadowed, cellFromNextLevel.
  destruct l; try done; simpl; simpl in Hsc;
    rewrite !lookup_union, level_store_lookup;
    destruct (dynamicConfig c !! key) eqn:Ey, (userConfig c !! key) eqn:Eu,
      (backendConfig c !! key) eqn:Eb, (environmentConfig c !! key) eqn:Ee,
      (defaultConfig c !! key) eqn:Ed; simpl; try done;
    match goal with
    | |- context [match ?m !! key with _ => _ end] =>
        destruct (m !! key) as [v|] eqn:E; simpl;
        rewrite ?(plain_built _ _ _ _ (Hsc _ eq_refl)); try done
    end;
    destruct override; simpl; rewrite ?Ey, ?Eu, ?Eb, ?Ee, ?Ed; done.
Qed.

Lemma level_write_storesOK
    (c : Configuration) (l : CONFIGLEVEL) (conf : IConfig) (override : bool) :
  storesOK c → plainConfig conf →
  storesOK (match l with
            | ENVIRONMENT => setEnvironmentConfig_fields conf override c
            | BACKEND => setBackendConfig_fields conf override c
            | _ => setUserConfig_fields conf override c
            end).
Proof.
  intros Hs Hp. destruct l.
  - by apply setUserConfig_fields_storesOK.
  - by apply setEnvironmentConfig_fields_storesOK.
  - by apply setBackendConfig_fields_storesOK.
  - by apply setUserConfig_fields_storesOK.
  - by apply setUserConfig_fields_storesOK.
Qed.

(** X6. What a level write does to the configuration, key by key. A key
    that a higher store contains keeps its cell. Otherwise a key the write
    accepts (at USER: a supplied key that is not read only; at ENVIRONMENT
    and BACKEND: every supplied key) gets the supplied value in a cell of
    the written level; a key it does not accept keeps its cell after a
    merging write and falls back to the cell of the next store down after a
    replacing one. The write itself returns normally. *)
Theorem X6_level_write_effect
    (w : World) (l : CONFIGLEVEL) (conf : IConfig) (override : bool) :
  reachable w → plainConfig conf → writable l = true →
  let o := options (this w) in
  let w' := (writeLevel l conf override w).2 in
  (writeLevel l conf override w).1 = Ok tt
  ∧ ∀ key,
      effective (this w') key
      = if shadowed (this w) l key then effective (this w) key
        else match accepted o l conf !! key with
             | Some v => Some (VObject (mkObject v l (Some (isReadOnlyKey o key))))
             | None =>
                 if override then cellFromNextLevel (this w) l key
                 else effective (this w) key
             end.
Proof.
  intros Hr Hp Hl o w'. pose proof (reachable_wf w Hr) as Hw.
  pose proof (wf_stores _ Hw) as Hs.
  unfold w'. rewrite (writeLevel_run l conf override w Hl). split; [done|].
  intros key. simpl snd. rewrite (effective_overlay w key Hw).
  rewrite effective_written by by apply level_write_storesOK.
  by apply level_write_overlay.
Qed.

Lemma X6_level_write_effect_witness :
  let w' := (writeLevel USER {[ "foo" := VString "u"; "bar" := VNumber 7 ]} true
               (construct (JsObject sampleDefaults) sampleOptions newWorld).2).2 in
  effective (this w') "bar" = Some (VObject (mkObject (VNumber 7) USER (Some false)))
  ∧ effective (this w') "foo" = Some (VObject (mkObject (VString "bar") DEFAULT (Some true))).
Proof.
  intros w'.
  assert (reachable (construct (JsObject sampleDefaults) sampleOptions newWorld).2) as Hr.
  { apply (reachable_new sampleDefaults sampleOptions).
    - apply isPlainConfig_plain. vm_compute. reflexivity.
    - by rewrite construct_run. }
  assert (plainConfig ({[ "foo" := VString "u"; "bar" := VNumber 7 ]} : IConfig)) as Hp
    by (apply isPlainConfig_plain; vm_compute; reflexivity).
  destruct (X6_level_write_effect _ USER _ true Hr Hp eq_refl) as [_ He].
  split.
  - subst w'. rewrite (He "bar"). vm_compute. reflexivity.
  - subst w'. rewrite (He "foo"). vm_compute. reflexivity.
Defined.

Lemma rebuilt_ext (c c' : Configuration) :
  options c = options c' →
  (∀ l, store c l = store c' l) →
  listeners c = listeners c' →
  backendUpdateTimeout c = backendUpdateTimeout c' →
  rebuilt c = rebuilt c'.
Proof.
  intros Ho Hst Hl Ht.
  pose proof (Hst DEFAULT) as Hd. pose proof (Hst ENVIRONMENT) as He.
  pose proof (Hst BACKEND) as Hk. pose proof (Hst USER) as Hu.
  pose proof (Hst DYNAMIC) as Hy. simpl in Hd, He, Hk, Hu, Hy.
  destruct c, c'. simpl in *. subst. reflexivity.
Qed.

Lemma built_union (o : IConfigurationOptions) (l : CONFIGLEVEL) (c1 c2 : IConfig) :
  builtObjects o l (c2 ∪ c1) = builtObjects o l c2 ∪ builtObjects o l c1.
Proof.
  apply map_eq. intros key. rewrite lookup_union, !built_lookup, lookup_union.
  by destruct (c2 !! key), (c1 !! key).
Qed.

Lemma filteredConfig_union (o : IConfigurationOptions) (c1 c2 : IConfig) :
  filteredConfig o (c2 ∪ c1) = filteredConfig o c2 ∪ filteredConfig o c1.
Proof.
  apply map_eq. intros key. rewrite lookup_union, !filteredConfig_lookup, lookup_union.
  by destruct (isReadOnlyKey o key), (c2 !! key), (c1 !! key).
Qed.

(** X7. Level writes to the same level compose. Two merging writes leave
    the instance that one merging write of the two mappings together leaves,
    the later mapping winning where both supply a key; a replacing write
    makes the writes that went to the level before it irrelevant. *)
Theorem X7_level_writes_compose
    (w : World) (l : CONFIGLEVEL) (c1 c2 : IConfig) (override : bool) :
  reachable w → plainConfig c1 → plainConfig c2 → writable l = true →
  this (writeLevel l c2 false (writeLevel l c1 false w).2).2
  = this (writeLevel l (c2 ∪ c1) false w).2
  ∧ this (writeLevel l c2 true (writeLevel l c1 override w).2).2
    = this (writeLevel l c2 true w).2.
Proof.
  intros _ _ _ Hl. rewrite !(writeLevel_run l _ _ _ Hl). simpl snd. cbn [this written].
  destruct l; try done; split; apply rebuilt_ext; try done; intros l; destruct l; simpl;
    rewrite ?built_union, ?filteredConfig_union, ?built_union, ?(assoc_L (∪)); done.
Qed.

Lemma X7_level_writes_compose_witness :
  let w := (construct (JsObject sampleDefaults) sampleOptions newWorld).2 in
  let c1 : IConfig := {[ "foo" := VString "a"; "bar" := VNumber 1 ]} in
  let c2 : IConfig := {[ "bar" := VNumber 2 ]} in
  this (writeLevel BACKEND c2 false (writeLevel BACKEND c1 false w).2).2
  = this (writeLevel BACKEND (c2 ∪ c1) false w).2.
Proof.
  intros w c1 c2.
  assert (reachable w) as Hr.
  { apply (reachable_new sampleDefaults sampleOptions).
    - apply isPlainConfig_plain. vm_compute. reflexivity.
    - by rewrite construct_run. }
  assert (plainConfig c1) as Hp1 by (apply isPlainConfig_plain; vm_compute; reflexivity).
  assert (plainConfig c2) as Hp2 by (apply isPlainConfig_plain; vm_compute; reflexivity).
  exact (proj1 (X7_level_writes_compose w BACKEND c1 c2 false Hr Hp1 Hp2 eq_refl)).
Defined.

(** ** What every call preserves *)

Section Preservation.

Variable P : Configuration → Prop.

Hypothesis P_core : ∀ c c', sameCore c c' → P c → P c'.
Hypothesis P_setConfig : ∀ c key cell,
  P c → isReadOnlyKey (options c) key = false → P (rebuilt (setConfig_fields key cell c)).
Hypothesis P_deleteConfig : ∀ c key, P c → P (rebuilt (deleteConfig_fields key c)).
Hypothesis P_environment : ∀ c conf override,
  P c → P (rebuilt (setEnvironmentConfig_fields conf override c)).
Hypothesis P_backend : ∀ c conf override,
  P c → P (rebuilt (setBackendConfig_fields conf override c)).
Hypothesis P_user : ∀ c conf override,
  P c → P (rebuilt (setUserConfig_fields conf override c)).
Hypothesis P_new : ∀ props opts, P (rebuilt (construct_fields props opts)).

Lemma preserved_settle (fetch : FetchOutcome) (w : World) :
  P (this w) → P (this (runBackendAutoUpdate_settle fetch w).2).
Proof.
  intros Hw. destruct fetch as [res|error]; [|by rewrite settle_rejected].
  destruct (fetched (Resolved res)) as [r|] eqn:Hf.
  - rewrite (settle_written r _ w Hf). simpl.
    eapply P_core; [|apply (P_backend (this w) r true Hw)]. done.
  - rewrite (settle_nothing _ _ Hf). simpl. eapply P_core; [|exact Hw]. done.
Qed.

Lemma preserved_issue (w : World) :
  P (this w) → P (this (runBackendAutoUpdate_issue w).2).
Proof.
  intros Hw. unfold runBackendAutoUpdate_issue. rewrite bind_run, getThis_run.
  destruct (negb (backendUpdateFn (options (this w)))); [done|].
  by destruct (backendUpdateTimeout (this w)).
Qed.

Lemma preserved_run (fetch : FetchOutcome) (w : World) :
  P (this w) → P (this (runBackendAutoUpdate fetch w).2).
Proof.
  intros Hw. unfold runBackendAutoUpdate. rewrite bind_run.
  pose proof (preserved_issue w Hw) as Hi.
  destruct (runBackendAutoUpdate_issue w) as [[[]|e] w1]; [|exact Hi].
  by apply preserved_settle.
Qed.

Lemma preserved_exec (op : Op) (w : World) : P (this w) → P (this (exec op w).2).
Proof.
  intros Hw. destruct op; simpl exec.
  - rewrite bind_run. destruct (config (this w)) as [cfg|] eqn:Hc.
    + rewrite (setConfig_run _ _ _ _ Hc).
      destruct (negb (truthy (cfg !! key))); [done|].
      destruct (isReadOnlyKey (options (this w)) key) eqn:Hro; [done|].
      by apply P_setConfig.
    + by rewrite (setConfig_not_built _ _ _ Hc).
  - rewrite deleteConfig_run. by apply P_deleteConfig.
  - rewrite setEnvironmentConfig_run. by apply P_environment.
  - rewrite setBackendConfig_run. by apply P_backend.
  - rewrite setUserConfig_run. by apply P_user.
  - eapply P_core; [|exact Hw]. done.
  - eapply P_core; [|exact Hw]. done.
  - rewrite bind_run. unfold startBackendAutoUpdate. rewrite bind_run, getThis_run.
    destruct (negb (backendUpdateFn (options (this w)))); [done|].
    destruct (bool_decide (is_Some (backendUpdateTimeout (this w)))
              && backendUpdateFn (options (this w))); [done|].
    destruct (backendUpdateFn (options (this w))); [|done].
    rewrite bind_run. pose proof (preserved_run fetch w Hw) as Hrun.
    by destruct (runBackendAutoUpdate fetch w) as [[[]|e] w1].
  - unfold stopBackendAutoUpdate. rewrite bind_run, getThis_run.
    destruct (backendUpdateTimeout (this w)); [|done].
    eapply P_core; [|exact Hw]. done.
  - unfold timerFires. case_bool_decide; [|done].
    rewrite bind_run. by apply (preserved_run fetch (elapse h w).2).
  - done.
  - by apply preserved_issue.
  - by apply preserved_settle.
Qed.

Lemma constructed_preserved (w : World) : constructed w → P (this w).
Proof.
  induction 1 as [defaults opts w Hc|op w r w' _ IH He].
  - rewrite construct_run_any in Hc. destruct (ownProperties defaults); [|done].
    injection Hc as <-. apply P_new.
  - pose proof (preserved_exec op w IH) as Hw. by rewrite He in Hw.
Qed.

End Preservation.



Lemma builtConfig_lookup (c : Configuration) (key : string) (v : ConfigValue) :
  builtConfig c !! key = Some v →
  ∃ o, v = VObject o
       ∧ (isReadOnlyKey (options c) key = true → readonly o = Some true)
       ∧ ∃ l, is_Some (store c l !! key).
Proof.
  unfold builtConfig. rewrite map_lookup_imap.
  destruct ((_ ∪ _) !! key) as [x|] eqn:E; [|done]. simpl. intros [= <-].
  assert (∃ l y, store c l !! key = Some y
                 ∧ x = buildConfigurationObject (options c) l key y) as (l & y & Hy & ->).
  { rewrite !lookup_union_Some_raw, !built_lookup in E.
    destruct E as [[[[E|[_ E]]|[_ E]]|[_ E]]|[_ E]];
      [exists DYNAMIC|exists USER|exists BACKEND|exists ENVIRONMENT|exists DEFAULT];
      simpl; destruct (_ !! key) as [y|]; simplify_eq/=; eauto. }
  unfold resetReadOnlyFlag, buildConfigurationObject.
  destruct (isReadOnlyKey (options c) key) eqn:Hro, y as [| | |o]; eexists;
    (split; [reflexivity|]); split; try done; eauto.
Qed.

Lemma builtConfig_lookup_None (c : Configuration) (key : string) :
  builtConfig c !! key = None → ∀ l, store c l !! key = None.
Proof.
  unfold builtConfig. rewrite map_lookup_imap.
  destruct ((_ ∪ _) !! key) as [x|] eqn:E; [done|]. intros _.
  rewrite !lookup_union_None, !built_lookup in E.
  destruct E as [[[[Ey Eu] Eb] Ee] Ed]. intros l.
  apply fmap_None in Ey, Eu, Eb, Ee, Ed. by destruct l.
Qed.

Lemma builtConfig_sameCore (c c' : Configuration) :
  options c' = options c → (∀ l, store c' l = store c l) → builtConfig c' = builtConfig c.
Proof.
  intros Ho Hst.
  pose proof (Hst DEFAULT) as Hd. pose proof (Hst ENVIRONMENT) as He.
  pose proof (Hst BACKEND) as Hk. pose proof (Hst USER) as Hu.
  pose proof (Hst DYNAMIC) as Hy. simpl in Hd, He, Hk, Hu, Hy.
  unfold builtConfig. by rewrite Ho, Hd, He, Hk, Hu, Hy.
Qed.

(** X9. Whatever the arguments of the calls, between two calls the buffer
    of changed keys is empty and the configuration has an entry exactly for
    the keys some store contains; every entry is a cell, and the cell of a
    read-only key is flagged read only. *)
Theorem X9_configuration_follows_the_stores (w : World) :
  constructed w →
  changedKeysBuffer (this w) = ∅
  ∧ ∃ cfg, config (this w) = Some cfg
     ∧ (∀ key, is_Some (cfg !! key) ↔ ∃ l, is_Some (store (this w) l !! key))
     ∧ (∀ key v, cfg !! key = Some v →
          ∃ o, v = VObject o
               ∧ (key ∈ readOnlyKeys (options (this w)) → readonly o = Some true)).
Proof.
  intros Hw.
  assert (config (this w) = Some (builtConfig (this w)) ∧ changedKeysBuffer (this w) = ∅)
    as [Hc Hb].
  { apply (constructed_preserved
             (λ c, config c = Some (builtConfig c) ∧ changedKeysBuffer c = ∅)); [..|exact Hw].
    - intros c c' (Ho & Hst & Hcf & Hbf) [Hc Hb].
      by rewrite Hcf, Hbf, (builtConfig_sameCore c c' Ho Hst).
    - intros c k cell _ _. split; [|done]. simpl. f_equal; by apply builtConfig_sameCore.
    - intros c k _. split; [|done]. simpl. f_equal; by apply builtConfig_sameCore.
    - intros c conf ov _. split; [|done]. simpl. f_equal; by apply builtConfig_sameCore.
    - intros c conf ov _. split; [|done]. simpl. f_equal; by apply builtConfig_sameCore.
    - intros c conf ov _. split; [|done]. simpl. f_equal; by apply builtConfig_sameCore.
    - intros props opts. split; [|done]. simpl. f_equal; by apply builtConfig_sameCore. }
  split; [done|]. exists (builtConfig (this w)). split; [done|]. split.
  - intros key. split.
    + intros [v Hv]. by destruct (builtConfig_lookup _ _ _ Hv) as (o & _ & _ & Hl).
    + intros [l [y Hy]]. destruct (builtConfig (this w) !! key) as [v|] eqn:E; [eauto|].
      by rewrite (builtConfig_lookup_None _ _ E l) in Hy.
  - intros key v Hv. destruct (builtConfig_lookup _ _ _ Hv) as (o & -> & Hro & _).
    exists o. split; [done|]. intros Hk. by apply Hro, bool_decide_eq_true_2.
Qed.

Lemma X9_configuration_follows_the_stores_witness :
  changedKeysBuffer (this sampleWorld) = ∅
  ∧ ∃ cfg, config (this sampleWorld) = Some cfg
     ∧ (∀ key, is_Some (cfg !! key) ↔ ∃ l, is_Some (store (this sampleWorld) l !! key))
     ∧ (∀ key v, cfg !! key = Some v →
          ∃ o, v = VObject o
               ∧ (key ∈ readOnlyKeys (options (this sampleWorld)) → readonly o = Some true)).
Proof.
  apply X9_configuration_follows_the_stores.
  apply constructed_execAll.
  apply (constructed_new (JsObject sampleDefaults) sampleOptions).
  by rewrite construct_run.
Defined.

(** ** Listeners *)

(** A rebuild calls every listener registered without keys, with the whole
    configuration. *)
Lemma written_notifies_all (c1 : Configuration) (w : World) (l : IListener) :
  l ∈ listeners c1 → keys l = [] →
  mkCall (callback l) (Some <$> builtConfig c1) ∈ callsDuring w (written c1 w).
Proof.
  intros Hl Hk. rewrite callsDuring_written. unfold announce.
  apply list_elem_of_In, in_concat.
  exists (listenerCalls (builtConfig c1) (changedKeysBuffer c1) l). split.
  - apply in_map, list_elem_of_In, Hl.
  - unfold listenerCalls. rewrite Hk. by left.
Qed.

(** With no key in the buffer a rebuild calls the listeners registered
    without keys and nobody else. *)
Lemma announce_nothing_changed (cfg : IConfig) (ls : list IListener) :
  concat (map (listenerCalls cfg ∅) ls)
  = map (λ l, mkCall (callback l) (Some <$> cfg)) (filter (λ l, keys l = []) ls).
Proof.
  induction ls as [|l ls IH]; [done|]. simpl. rewrite filter_cons, IH.
  destruct (decide (keys l = [])) as [Hk|Hk].
  - unfold listenerCalls. by rewrite Hk.
  - rewrite listenerCalls_keys by done. rewrite bool_decide_eq_true_2; [done|].
    clear. induction (keys l) as [|k ks IHk]; [done|].
    rewrite filter_cons, decide_False by set_solver. exact IHk.
Qed.

(** X10. A listener registered with an empty list of keys is called in
    every rebuild, with the whole configuration as it then is: by every
    [setConfig] that returns [true], every [deleteConfig] and every level
    write. A level write of an empty mapping, which changes nothing, calls
    exactly these listeners, each once, and no listener registered with
    keys. *)
Theorem X10_listener_without_keys (w : World) (op : Op) (l : IListener) :
  reachable w → plainOp op → rebuilds op w →
  l ∈ listeners (this w) → keys l = [] →
  (∃ cfg, config (this (exec op w).2) = Some cfg
          ∧ mkCall (callback l) (Some <$> cfg) ∈ callsDuring w (exec op w).2)
  ∧ (∀ lv override cfg,
       writable lv = true → config (this w) = Some cfg →
       override = false ∨ store (this w) lv = ∅ →
       callsDuring w (writeLevel lv ∅ override w).2
       = map (λ l, mkCall (callback l) (Some <$> cfg))
           (filter (λ l, keys l = []) (listeners (this w)))).
Proof.
  intros Hr Hp Hb Hl Hk. pose proof (reachable_wf w Hr) as Hw. split.
  - destruct op as [k val|k|conf ov|conf ov|conf ov| | | | | | | |]; simpl in Hb; try done;
      simpl exec.
    + rewrite bind_run. destruct (setConfig_true w k val Hw Hb) as [_ ->].
      eexists. split; [reflexivity|]. by apply written_notifies_all.
    + rewrite deleteConfig_run. eexists. split; [reflexivity|].
      by apply written_notifies_all.
    + rewrite setEnvironmentConfig_run. eexists. split; [reflexivity|].
      by apply written_notifies_all.
    + rewrite setBackendConfig_run. eexists. split; [reflexivity|].
      by apply written_notifies_all.
    + rewrite setUserConfig_run. eexists. split; [reflexivity|].
      by apply written_notifies_all.
  - intros lv override cfg Hlv Hc Hcase.
    rewrite (writeLevel_run lv _ _ _ Hlv). cbn [snd].
    rewrite callsDuring_written.
    assert (∀ c1, options c1 = options (this w) → (∀ l', store c1 l' = store (this w) l') →
                  changedKeysBuffer c1 = ∅ → listeners c1 = listeners (this w) →
                  announce c1
                  = map (λ l, mkCall (callback l) (Some <$> cfg))
                      (filter (λ l, keys l = []) (listeners (this w)))) as Hgen.
    { intros c1 Ho Hst Hbuf Hls. unfold announce.
      rewrite Hbuf, Hls, (builtConfig_sameCore (this w) c1 Ho Hst).
      rewrite builtConfig_overlay by apply Hw. rewrite (wf_config _ Hw) in Hc.
      injection Hc as ->. apply announce_nothing_changed. }
    assert (∀ lv', builtObjects (options (this w)) lv' ∅ = ∅) as Hbe.
    { intros lv'. apply map_eq. intros k. by rewrite built_lookup, lookup_empty. }
    assert (filteredConfig (options (this w)) ∅ = ∅) as Hfe.
    { apply map_eq. intros k. rewrite filteredConfig_lookup, lookup_empty.
      by destruct (isReadOnlyKey _ k). }
    destruct lv; try done; apply Hgen; simpl; try done;
      rewrite ?Hfe, ?Hbe, ?dom_empty_L, ?(wf_buffer _ Hw), ?(left_id_L ∅ (∪)); try done;
      intros l'; destruct l'; simpl; try done; rewrite ?Hfe, ?Hbe;
      destruct Hcase as [->|He]; simpl in *; rewrite ?He, ?(left_id_L ∅ (∪)); try done;
      by destruct override.
Qed.

Lemma watchedWorld_reachable : reachable watchedWorld.
Proof.
  apply (reachable_exec (OpSubscribe (KeyArray []) "onAny" 1) sampleWorld (Ok tt)).
  - exact sampleWorld_reachable.
  - exact I.
  - reflexivity.
Qed.

Lemma X10_listener_without_keys_witness :
  let l := mkListener "listener-id-1-1" [] "onAny" in
  let w' := (exec (OpDeleteConfig "bar") watchedWorld).2 in
  ∃ cfg, config (this w') = Some cfg
         ∧ mkCall "onAny" (Some <$> cfg) ∈ callsDuring watchedWorld w'.
Proof.
  intros l w'.
  refine (proj1 (X10_listener_without_keys watchedWorld (OpDeleteConfig "bar") l
                   watchedWorld_reachable I I _ eq_refl)).
  by_compute.
Defined.

(** The cell of a store below a level is not of that level. *)
Lemma cellFromNextLevel_level (c : Configuration) (l : CONFIGLEVEL) (key : string) :
  storesOK c → cellFromNextLevel c l key ≫= levelOf ≠ Some l.
Proof.
  intros Hs. unfold cellFromNextLevel.
  assert (∀ l' v, store c l' !! key = Some v → levelOf v = Some l') as Hlv.
  { intros l' v Hv. by destruct (Hs l' key v Hv) as [x ->]. }
  destruct l; simpl; try done;
    repeat match goal with
           | |- context [match ?m !! key with _ => _ end] =>
               let E := fresh "E" in destruct (m !! key) eqn:E; simpl; rewrite ?E; simpl
           end;
    try done;
    match goal with
    | E : _ !! key = Some ?v |- levelOf ?v ≠ _ =>
        first [rewrite (Hlv DEFAULT _ E)|rewrite (Hlv ENVIRONMENT _ E)
              |rewrite (Hlv BACKEND _ E)|rewrite (Hlv USER _ E)]
    end; done.
Qed.

(** X11. A replacing level write puts into the buffer of changed keys the
    keys it accepts and no other, with or without the old store handed to
    [updateChangedKeysBufferWithPartialConfig]. So a listener all of whose
    keys are dropped by the write is not called, even for a key whose cell
    came from the written level and is now another one. *)
Theorem X11_dropped_keys_are_not_announced
    (w : World) (lv : CONFIGLEVEL) (conf : IConfig) (l0 : IListener) (key : string) :
  reachable w → plainConfig conf → writable lv = true →
  keys l0 ≠ [] →
  (∀ k, k ∈ keys l0 → accepted (options (this w)) lv conf !! k = None) →
  let w' := (writeLevel lv conf true w).2 in
  let changed := dom (accepted (options (this w)) lv conf) in
  (∃ cfg, config (this w') = Some cfg
          ∧ callsDuring w w' = concat (map (listenerCalls cfg changed) (listeners (this w)))
          ∧ listenerCalls cfg changed l0 = [])
  ∧ (key ∈ keys l0 → highestLevel (this w) key = Some lv →
     effective (this w') key = cellFromNextLevel (this w) lv key
     ∧ effective (this w') key ≠ effective (this w) key)
  ∧ (∀ newConf oldConf w0,
       updateChangedKeysBufferWithPartialConfig newConf oldConf w0
       = updateChangedKeysBufferWithPartialConfig newConf None w0).
Proof.
  intros Hr Hp Hlv Hk Hdrop w' changed. pose proof (reachable_wf w Hr) as Hw.
  pose proof (wf_stores _ Hw) as Hs.
  unfold w'. rewrite (writeLevel_run lv conf true w Hlv). cbn [snd].
  split; [|split].
  - eexists. split; [reflexivity|]. rewrite callsDuring_written. unfold announce.
    assert (∀ c1, changedKeysBuffer c1 = changed ∪ changedKeysBuffer (this w) →
                  changedKeysBuffer c1 = changed) as Hbuf.
    { intros c1 ->. by rewrite (wf_buffer _ Hw), (right_id_L ∅ (∪)). }
    split.
    + destruct lv; try done; simpl; by rewrite (wf_buffer _ Hw), (right_id_L ∅ (∪)).
    + rewrite listenerCalls_keys by done. rewrite bool_decide_eq_true_2; [done|].
      assert (∀ ks : list string, (∀ k, k ∈ ks → k ∉ changed) →
                filter (λ k, k ∈ changed) ks = []) as Hf.
      { induction ks as [|k ks IH]; [done|]. intros Hks.
        rewrite filter_cons, decide_False by (apply Hks; left).
        apply IH. intros k' Hk'. apply Hks. by right. }
      apply Hf. intros k Hin. apply not_elem_of_dom. by apply Hdrop.
  - intros Hin Hh.
    rewrite effective_written by by apply level_write_storesOK.
    rewrite (effective_overlay w key Hw).
    assert (overlay (match lv with
                     | ENVIRONMENT => setEnvironmentConfig_fields conf true (this w)
                     | BACKEND => setBackendConfig_fields conf true (this w)
                     | _ => setUserConfig_fields conf true (this w)
                     end) !! key = cellFromNextLevel (this w) lv key) as Hnext.
    { apply overlay_falls_through; [done| |].
      - specialize (Hdrop key Hin). destruct lv; try done; simpl in *;
          by rewrite built_lookup, Hdrop.
      - intros l' Hne. by destruct lv, l'. }
    split; [exact Hnext|]. rewrite Hnext. intros Heq.
    apply (cellFromNextLevel_level (this w) lv key Hs).
    by rewrite Heq, overlay_level, Hh.
  - intros newConf oldConf w0. by rewrite !updateChangedKeysBuffer_run.
Qed.

Lemma X11_dropped_keys_are_not_announced_witness :
  let l0 := mkListener "listener-id-0-4711" ["bar"] "onBar" in
  let w' := (writeLevel USER ∅ true sampleWorld).2 in
  userConfig (this sampleWorld) !! "bar" = Some (VObject (mkObject (VNumber 20) USER (Some false)))
  ∧ userConfig (this w') !! "bar" = None
  ∧ callsDuring sampleWorld w' = [].
Proof.
  intros l0 w'.
  assert (plainConfig (∅ : IConfig)) as Hp by apply map_Forall_empty.
  destruct (X11_dropped_keys_are_not_announced sampleWorld USER ∅ l0 "bar"
              sampleWorld_reachable Hp eq_refl) as ((cfg & Hc & Hcalls & Hnone) & _).
  - discriminate.
  - intros k _. vm_compute. reflexivity.
  - split; [vm_compute; reflexivity|]. split; [vm_compute; reflexivity|].
    change (callsDuring sampleWorld (writeLevel USER ∅ true sampleWorld).2 = []).
    rewrite Hcalls. change (listeners (this sampleWorld)) with [l0].
    cbn [map concat]. rewrite Hnone. reflexivity.
Defined.

(** X12. [subscribe] returns the identifier of the registration it adds at
    the end of the listeners, calls no callback and changes nothing else.
    When no registered listener has that identifier, cancelling the
    registration right away gives back the state before the subscription. *)
Theorem X12_subscribe_then_unsubscribe
    (w : World) (ks : KeysArg) (cb : Callback) (rnd : nat) :
  (∀ l, l ∈ listeners (this w) → id l ≠ listenerId (this w) rnd) →
  let r := subscribe ks cb rnd w in
  r.1 = Ok (listenerId (this w) rnd)
  ∧ listeners (this r.2)
    = listeners (this w) ++ [mkListener (listenerId (this w) rnd) (keysOf ks) cb]
  ∧ notified r.2 = notified w
  ∧ sameCore (this w) (this r.2)
  ∧ (unsubscribe (listenerId (this w) rnd) r.2).2 = w.
Proof.
  intros Hfresh r. unfold r. rewrite subscribe_run. cbn [fst snd].
  split; [done|]. split; [done|]. split; [done|]. split; [done|].
  rewrite unsubscribe_run. cbn [snd this notified timers timerSeq].
  assert (filter (λ l, id l ≠ listenerId (this w) rnd)
            (listeners (this w) ++ [newListener (this w) ks cb rnd])
          = listeners (this w)) as Hf.
  { rewrite filter_app, filter_cons, decide_False, filter_nil, app_nil_r
      by (intros Hne; by apply Hne).
    revert Hfresh. generalize (listenerId (this w) rnd).
    induction (listeners (this w)) as [|l ls IH]; [done|]. intros i Hfresh.
    rewrite filter_cons, decide_True by (apply Hfresh; left).
    f_equal. apply IH. intros l' Hl'. apply Hfresh. by right. }
  simpl. rewrite Hf. by destruct w as [[] ? ? ?].
Qed.

Lemma X12_subscribe_then_unsubscribe_witness :
  (unsubscribe (listenerId (this sampleWorld) 7)
     (subscribe (SingleKey "foo") "onFoo" 7 sampleWorld).2).2 = sampleWorld.
Proof.
  refine (proj2 (proj2 (proj2 (proj2
            (X12_subscribe_then_unsubscribe sampleWorld (SingleKey "foo") "onFoo" 7 _))))).
  intros l Hl. change (listeners (this sampleWorld))
    with [mkListener "listener-id-0-4711" ["bar"] "onBar"] in Hl.
  apply list_elem_of_singleton in Hl as ->. vm_compute. discriminate.
Defined.

(** ** The refresh loop *)

Lemma issue_run (w : World) :
  backendUpdateFn (options (this w)) = true →
  runBackendAutoUpdate_issue w
  = (Ok tt, match backendUpdateTimeout (this w) with
            | Some h => (clearTimeout h w).2
            | None => w
            end).
Proof.
  intros Hf. unfold runBackendAutoUpdate_issue. rewrite bind_run, getThis_run, Hf.
  by destruct (backendUpdateTimeout (this w)).
Qed.

(** What an invocation whose fetch resolves leaves. *)
Lemma settle_resolved (res : option IConfig) (w : World) :
  ∃ w1, runBackendAutoUpdate_settle (Resolved res) w = (Ok tt, scheduled w1)
        ∧ timers w1 = timers w ∧ timerSeq w1 = timerSeq w
        ∧ options (this w1) = options (this w)
        ∧ listeners (this w1) = listeners (this w)
        ∧ backendConfig (this w1) = refreshed (this w) (Resolved res)
        ∧ (∀ l, l ≠ BACKEND → store (this w1) l = store (this w) l).
Proof.
  unfold refreshed. destruct (fetched (Resolved res)) as [r|] eqn:Hf.
  - exists (written (setBackendConfig_fields r true (this w)) w).
    split; [by apply settle_written|]. repeat split; try done. by intros [].
  - exists w. split; [by apply settle_nothing|]. done.
Qed.

(** X13. [startBackendAutoUpdate] ends in one of these ways and never
    returns [false]. Without a backend update function it throws
    [NO_BACKEND_UPDATE_FN]; with a timeout handle recorded it returns [true]
    without fetching; with no handle recorded and a fetch that fails it
    throws [BACKEND_UPDATE_FAILED] with the failure as its cause. In these
    three cases the instance, the callbacks invoked and the timeouts are as
    before, so that after a failed first fetch a later call fetches again. *)
Theorem X13_startBackendAutoUpdate_outcomes (w : World) (fetch : FetchOutcome) :
  (backendUpdateFn (options (this w)) = false →
   startBackendAutoUpdate fetch w
   = (Throw (ConfigurationError ERRORCODES.NO_BACKEND_UPDATE_FN None), w))
  ∧ (backendUpdateFn (options (this w)) = true →
     is_Some (backendUpdateTimeout (this w)) →
     startBackendAutoUpdate fetch w = (Ok true, w))
  ∧ (backendUpdateFn (options (this w)) = true →
     backendUpdateTimeout (this w) = None →
     ∀ error,
       startBackendAutoUpdate (Rejected error) w
       = (Throw (ConfigurationError ERRORCODES.BACKEND_UPDATE_FAILED (Some error)), w))
  ∧ (startBackendAutoUpdate fetch w).1 ≠ Ok false.
Proof.
  unfold startBackendAutoUpdate. rewrite !bind_run, !getThis_run.
  split; [|split; [|split]].
  - by intros ->.
  - intros -> Hh. simpl. by rewrite bool_decide_eq_true_2.
  - intros Hf Hh error. rewrite bind_run, getThis_run, Hf, Hh. simpl.
    rewrite bind_run. unfold runBackendAutoUpdate. rewrite bind_run, (issue_run w Hf), Hh.
    by rewrite settle_rejected.
  - destruct (backendUpdateFn (options (this w))); simpl; [|done].
    destruct (bool_decide (is_Some (backendUpdateTimeout (this w)))); simpl; [done|].
    rewrite bind_run. by destruct (runBackendAutoUpdate fetch w) as [[[]|e] w1].
Qed.

Lemma X13_startBackendAutoUpdate_outcomes_witness :
  startBackendAutoUpdate (Rejected (ForeignError "down")) idleWorld
  = (Throw (ConfigurationError ERRORCODES.BACKEND_UPDATE_FAILED (Some (ForeignError "down"))), idleWorld)
  ∧ startBackendAutoUpdate (Rejected (ForeignError "down")) loopWorld = (Ok true, loopWorld).
Proof.
  split.
  - refine (proj1 (proj2 (proj2
              (X13_startBackendAutoUpdate_outcomes idleWorld (Rejected (ForeignError "down")))))
              _ _ (ForeignError "down")); vm_compute; reflexivity.
  - refine (proj1 (proj2
              (X13_startBackendAutoUpdate_outcomes loopWorld (Rejected (ForeignError "down")))) _ _).
    + vm_compute; reflexivity.
    + vm_compute. eauto.
Defined.

(** X14. On an instance with a backend update function and no timeout
    handle recorded, [startBackendAutoUpdate] with a fetch that resolves
    returns [true]. A result with keys replaces the BACKEND store as a
    whole, a result without keys or [undefined] leaves it; the other stores
    are untouched. One timeout is set, its handle is recorded, and its delay
    is the configured interval, or 60000 when that is 0. *)
Theorem X14_startBackendAutoUpdate_first_run (w : World) (res : option IConfig) :
  reachable w → plainFetch (Resolved res) →
  backendUpdateFn (options (this w)) = true →
  backendUpdateTimeout (this w) = None →
  let r := startBackendAutoUpdate (Resolved res) w in
  r.1 = Ok true
  ∧ backendConfig (this r.2) = refreshed (this w) (Resolved res)
  ∧ (∀ l, l ≠ BACKEND → store (this r.2) l = store (this w) l)
  ∧ backendUpdateTimeout (this r.2) = Some (timerSeq w)
  ∧ timers r.2 = timers w ++ [(timerSeq w, delayOf (this w))]
  ∧ delayOf (this w) ≠ 0%Z
  ∧ (backendUpdateIntervalMs (options (this w)) ≠ 0%Z →
     delayOf (this w) = backendUpdateIntervalMs (options (this w))).
Proof.
  intros _ _ Hf Hh r. unfold r, startBackendAutoUpdate.
  rewrite bind_run, getThis_run, Hf, Hh. simpl.
  rewrite bind_run. unfold runBackendAutoUpdate. rewrite bind_run, (issue_run w Hf), Hh.
  destruct (settle_resolved res w) as (w1 & -> & Ht & Hq & Ho & _ & Hb & Hst).
  cbn [fst snd]. rewrite ret_run. cbn [fst snd]. split; [done|].
  split; [exact Hb|]. split; [intros l Hl; rewrite <-(Hst l Hl); by destruct l|].
  split; [simpl; by rewrite Hq|]. split.
  { simpl. rewrite Ht, Hq. unfold delayOf. simpl. by rewrite Ho. }
  unfold delayOf. destruct (Z.eqb_spec (backendUpdateIntervalMs (options (this w))) 0); done.
Qed.

Lemma X14_startBackendAutoUpdate_first_run_witness :
  let r := startBackendAutoUpdate (Resolved (Some {[ "bar" := VNumber 11 ]})) idleWorld in
  r.1 = Ok true ∧ timers r.2 = [(0, 50%Z)] ∧ backendUpdateTimeout (this r.2) = Some 0.
Proof.
  intros r.
  assert (reachable idleWorld) as Hr.
  { apply (reachable_new sampleDefaults loopOptions).
    - apply isPlainConfig_plain. vm_compute. reflexivity.
    - by rewrite construct_run. }
  assert (plainFetch (Resolved (Some {[ "bar" := VNumber 11 ]}))) as Hp
    by (apply isPlainConfig_plain; vm_compute; reflexivity).
  destruct (X14_startBackendAutoUpdate_first_run idleWorld _ Hr Hp eq_refl eq_refl)
    as (Hok & _ & _ & Hh & Ht & _).
  split; [exact Hok|]. split; [exact Ht|exact Hh].
Defined.

(** The loop while no call runs during a fetch. *)
Lemma singleLoop_frame (w w' : World) :
  timers w' = timers w →
  backendUpdateTimeout (this w') = backendUpdateTimeout (this w) →
  singleLoop w → singleLoop w'.
Proof. unfold singleLoop. by intros -> ->. Qed.

Lemma singleLoop_idle (w : World) :
  singleLoop w → backendUpdateTimeout (this w) = None → timers w = [].
Proof.
  unfold singleLoop. intros Hs Hh. destruct (timers w) as [|[h d] [|t ts]]; [done| |done].
  congruence.
Qed.

Lemma singleLoop_run (fetch : FetchOutcome) (w : World) :
  timers w = [] → singleLoop (runBackendAutoUpdate fetch w).2.
Proof.
  intros Ht. unfold runBackendAutoUpdate. rewrite bind_run.
  destruct (backendUpdateFn (options (this w))) eqn:Hf.
  - rewrite (issue_run w Hf).
    set (wi := match backendUpdateTimeout (this w) with
               | Some h => (clearTimeout h w).2
               | None => w
               end).
    assert (timers wi = []) as Ht1.
    { unfold wi. destruct (backendUpdateTimeout (this w)); [|done]. simpl. by rewrite Ht. }
    destruct fetch as [res|error].
    + destruct (settle_resolved res wi) as (w1 & -> & Ht' & Hq & _).
      unfold singleLoop. cbn [snd scheduled timers this]. by rewrite Ht', Ht1.
    + rewrite settle_rejected. unfold singleLoop. cbn [snd]. by rewrite Ht1.
  - unfold runBackendAutoUpdate_issue. rewrite bind_run, getThis_run, Hf. simpl.
    unfold singleLoop. by rewrite Ht.
Qed.

Lemma singleLoop_exec (op : Op) (w : World) :
  atomic op = true → singleLoop w → singleLoop (exec op w).2.
Proof.
  intros Ha Hs. destruct op; try done; simpl exec.
  - rewrite bind_run. destruct (config (this w)) as [cfg|] eqn:Hc.
    + rewrite (setConfig_run _ _ _ _ Hc).
      destruct (negb (truthy (cfg !! key))); [done|].
      destruct (isReadOnlyKey (options (this w)) key); [done|].
      by apply (singleLoop_frame w).
    + by rewrite (setConfig_not_built _ _ _ Hc).
  - rewrite deleteConfig_run. by apply (singleLoop_frame w).
  - rewrite setEnvironmentConfig_run. by apply (singleLoop_frame w).
  - rewrite setBackendConfig_run. by apply (singleLoop_frame w).
  - rewrite setUserConfig_run. by apply (singleLoop_frame w).
  - rewrite bind_run. unfold startBackendAutoUpdate. rewrite bind_run, getThis_run.
    destruct (negb (backendUpdateFn (options (this w)))); [done|].
    destruct (backendUpdateTimeout (this w)) as [h|] eqn:Hh; simpl.
    + by destruct (backendUpdateFn (options (this w))).
    + destruct (backendUpdateFn (options (this w))); [|done].
      rewrite bind_run. pose proof (singleLoop_run fetch w (singleLoop_idle w Hs Hh)) as Hrun.
      by destruct (runBackendAutoUpdate fetch w) as [[[]|e] w1].
  - unfold stopBackendAutoUpdate. rewrite bind_run, getThis_run.
    destruct (backendUpdateTimeout (this w)) as [h|] eqn:Hh; [|done].
    unfold singleLoop in *. simpl.
    destruct (timers w) as [|[h' d] [|t ts]]; [done| |done].
    rewrite Hh in Hs. injection Hs as ->.
    by rewrite filter_cons, decide_False by (simpl; auto).
  - unfold timerFires. case_bool_decide as Hin; [|done].
    rewrite bind_run. apply singleLoop_run. simpl.
    unfold singleLoop in Hs. destruct (timers w) as [|[h' d] [|t ts]]; [done| |done].
    simpl in Hin. apply list_elem_of_singleton in Hin as ->.
    by rewrite filter_cons, decide_False by (simpl; auto).
Qed.

Lemma singleLoop_execAll (ops : list Op) (w : World) :
  forallb atomic ops = true → singleLoop w → singleLoop (execAll ops w).
Proof.
  revert w. induction ops as [|op ops IH]; intros w Ha Hs; simpl; [done|].
  simpl in Ha. apply andb_true_iff in Ha as [Ha Has].
  apply IH; [done|]. by apply singleLoop_exec.
Qed.

(** X15. On an instance whose constructor has not started a fetch, and as
    long as no call runs while a fetch is awaited, at most one timeout is
    pending and its handle is the recorded one, whatever the calls and their
    arguments. [stopBackendAutoUpdate] then leaves no
    timeout pending and no handle recorded, and the loop makes no further
    invocation; calling it again changes nothing. *)
Theorem X15_one_loop_and_stop_ends_it
    (defaults : JsValue) (opts : PartialOptions) (w0 : World) (ops : list Op) :
  construct defaults opts newWorld = (Ok tt, w0) →
  backendUpdateFn (options (this w0)) && backendUpdateStartImmediate (options (this w0))
  = false →
  forallb atomic ops = true →
  let w := execAll ops w0 in
  let w' := (stopBackendAutoUpdate w).2 in
  singleLoop w
  ∧ timers w' = []
  ∧ backendUpdateTimeout (this w') = None
  ∧ (∀ fetches, (runTimers fetches w').1 = 0)
  ∧ (stopBackendAutoUpdate w').2 = w'.
Proof.
  intros Hc _ Ha w w'.
  assert (singleLoop w) as Hs.
  { apply singleLoop_execAll; [done|].
    rewrite construct_run_any in Hc. destruct (ownProperties defaults); [|done].
    by injection Hc as <-. }
  pose proof (singleLoop_exec OpStopBackendAutoUpdate w eq_refl Hs) as Hs'.
  assert (backendUpdateTimeout (this w') = None) as Hh.
  { unfold w', stopBackendAutoUpdate. rewrite bind_run, getThis_run.
    by destruct (backendUpdateTimeout (this w)) eqn:E. }
  assert (timers w' = []) as Ht by by apply singleLoop_idle.
  split; [done|]. split; [done|]. split; [done|]. split.
  - intros fetches. destruct fetches; simpl; [done|]. by rewrite Ht.
  - unfold stopBackendAutoUpdate at 1. by rewrite bind_run, getThis_run, Hh.
Qed.

Lemma X15_one_loop_and_stop_ends_it_witness :
  let w := execAll [OpStartBackendAutoUpdate (Resolved (Some {[ "bar" := VNumber 11 ]}));
                    OpSetConfig "bar" (VNumber 1);
                    OpTimerFires 0 (Resolved None)] idleWorld in
  timers w = [(1, 50%Z)] ∧ timers (stopBackendAutoUpdate w).2 = [].
Proof.
  intros w. split; [vm_compute; reflexivity|].
  refine (proj1 (proj2 (X15_one_loop_and_stop_ends_it (JsObject sampleDefaults) loopOptions
                          idleWorld
                          [OpStartBackendAutoUpdate (Resolved (Some {[ "bar" := VNumber 11 ]}));
                           OpSetConfig "bar" (VNumber 1);
                           OpTimerFires 0 (Resolved None)] _ eq_refl eq_refl))).
  by rewrite construct_run.
Defined.

(** X16. A call made while a fetch is awaited can leave the loop running
    or doubled. When [stopBackendAutoUpdate] is called during the fetch, the
    invocation still sets its timeout once the fetch resolves, so the loop
    goes on. When [startBackendAutoUpdate] is called a second time during
    the first fetch of the first call, no handle is recorded yet, both calls
    fetch and both set a timeout; only the handle of the second is recorded,
    and [stopBackendAutoUpdate] then cancels that one and leaves the other
    pending. *)
Theorem X16_calls_during_a_fetch (w : World) (res1 res2 : option IConfig) :
  backendUpdateFn (options (this w)) = true →
  timers w = [] →
  (let w1 := (runBackendAutoUpdate_issue w).2 in
   let w2 := (stopBackendAutoUpdate w1).2 in
   let w3 := (runBackendAutoUpdate_settle (Resolved res1) w2).2 in
   timers w3 = [(timerSeq w, delayOf (this w))]
   ∧ backendUpdateTimeout (this w3) = Some (timerSeq w))
  ∧ (backendUpdateTimeout (this w) = None →
     let w1 := (runBackendAutoUpdate_issue w).2 in
     let w2 := (runBackendAutoUpdate_issue w1).2 in
     let w3 := (runBackendAutoUpdate_settle (Resolved res1) w2).2 in
     let w4 := (runBackendAutoUpdate_settle (Resolved res2) w3).2 in
     backendUpdateTimeout (this w1) = None
     ∧ timers w4 = [(timerSeq w, delayOf (this w)); (S (timerSeq w), delayOf (this w))]
     ∧ backendUpdateTimeout (this w4) = Some (S (timerSeq w))
     ∧ timers (stopBackendAutoUpdate w4).2 = [(timerSeq w, delayOf (this w))]
     ∧ backendUpdateTimeout (this (stopBackendAutoUpdate w4).2) = None).
Proof.
  intros Hf Ht. split.
  - intros w1 w2 w3.
    assert (timers w2 = [] ∧ timerSeq w2 = timerSeq w ∧ options (this w2) = options (this w))
      as (Ht2 & Hq2 & Ho2).
    { unfold w2, w1. rewrite (issue_run w Hf).
      unfold stopBackendAutoUpdate. rewrite bind_run, getThis_run.
      destruct (backendUpdateTimeout (this w)) as [h|] eqn:Hh; simpl; rewrite ?Hh; simpl;
        by rewrite ?Ht. }
    unfold w3. destruct (settle_resolved res1 w2) as (x & -> & Htx & Hqx & Hox & _).
    simpl. unfold delayOf. by rewrite Htx, Hqx, Hox, Ht2, Hq2, Ho2.
  - intros Hh w1 w2 w3 w4.
    assert (w1 = w) as Hw1 by (unfold w1; by rewrite (issue_run w Hf), Hh).
    assert (w2 = w) as Hw2 by (unfold w2; by rewrite Hw1, (issue_run w Hf), Hh).
    split; [by rewrite Hw1|].
    unfold w4, w3. rewrite Hw2.
    destruct (settle_resolved res1 w) as (x & -> & Htx & Hqx & Hox & _). cbn [snd].
    destruct (settle_resolved res2 (scheduled x)) as (y & -> & Hty & Hqy & Hoy & _).
    cbn [snd]. simpl in Hty, Hqy, Hoy.
    assert (delayOf (this y) = delayOf (this w) ∧ delayOf (this x) = delayOf (this w))
      as [Hdy Hdx] by (unfold delayOf; by rewrite Hoy, Hox).
    split; [simpl; by rewrite Hty, Htx, Ht, Hqy, Hqx, Hdy, Hdx|].
    split; [simpl; by rewrite Hqy, Hqx|].
    unfold stopBackendAutoUpdate. rewrite bind_run, getThis_run. simpl.
    rewrite Hty, Htx, Ht, Hqy, Hqx, Hdy, Hdx. simpl.
    rewrite filter_cons, decide_True by (simpl; lia).
    by rewrite filter_cons, decide_False by (simpl; auto).
Qed.

Lemma X16_calls_during_a_fetch_witness :
  let w1 := (runBackendAutoUpdate_issue idleWorld).2 in
  let w2 := (stopBackendAutoUpdate w1).2 in
  let w3 := (runBackendAutoUpdate_settle (Resolved None) w2).2 in
  timers w3 = [(0, 50%Z)] ∧ backendUpdateTimeout (this w3) = Some 0.
Proof.
  exact (proj1 (X16_calls_during_a_fetch idleWorld None None eq_refl eq_refl)).
Defined.

Lemma timerFires_resolved (w : World) (h : nat) (d : Z) (res : option IConfig) :
  backendUpdateFn (options (this w)) = true →
  timers w = [(h, d)] →
  backendUpdateTimeout (this w) = Some h →
  ∃ w1, (timerFires h (Resolved res) w).2 = scheduled w1
        ∧ timers w1 = [] ∧ options (this w1) = options (this w).
Proof.
  intros Hf Ht Hh. unfold timerFires.
  rewrite bool_decide_eq_true_2 by (rewrite Ht; simpl; by left).
  rewrite bind_run. unfold elapse. cbv beta iota.
  unfold runBackendAutoUpdate. rewrite bind_run, issue_run by done.
  cbn [this]. rewrite Hh.
  match goal with
  | |- context [runBackendAutoUpdate_settle _ ?x] =>
      destruct (settle_resolved res x) as (w1 & -> & Ht1 & _ & Ho1 & _)
  end.
  exists w1. split; [done|]. split; [|done].
  rewrite Ht1. simpl. rewrite Ht.
  by rewrite !filter_cons, !decide_False by (simpl; auto).
Qed.

Lemma timerFires_rejected (w : World) (h : nat) (d : Z) (error : JsError) :
  backendUpdateFn (options (this w)) = true →
  timers w = [(h, d)] →
  backendUpdateTimeout (this w) = Some h →
  timers (timerFires h (Rejected error) w).2 = [].
Proof.
  intros Hf Ht Hh. unfold timerFires.
  rewrite bool_decide_eq_true_2 by (rewrite Ht; simpl; by left).
  rewrite bind_run. unfold elapse. cbv beta iota.
  unfold runBackendAutoUpdate. rewrite bind_run, issue_run by done.
  cbn [this]. rewrite Hh, settle_rejected. simpl. rewrite Ht.
  by rewrite !filter_cons, !decide_False by (simpl; auto).
Qed.

(** X17. Once started, the loop goes on by itself for as long as the
    fetches resolve, and ends with the first fetch that fails: of the
    fetches to come it consumes those up to and including the first failing
    one. After each invocation whose fetch resolved exactly one timeout is
    pending, and its handle is the recorded one. *)
Theorem X17_loop_runs_until_a_fetch_fails
    (fetches : list FetchOutcome) (w : World) (h : nat) (d : Z) :
  backendUpdateFn (options (this w)) = true →
  timers w = [(h, d)] →
  backendUpdateTimeout (this w) = Some h →
  let r := runTimers fetches w in
  r.1 = invocations fetches
  ∧ singleLoop r.2
  ∧ (forallb resolves fetches = true → length (timers r.2) = 1).
Proof.
  revert w h d. induction fetches as [|fetch rest IH]; intros w h d Hf Ht Hh; simpl.
  - unfold singleLoop. by rewrite Ht.
  - rewrite Ht. destruct fetch as [res|error]; cbn [fst snd resolves andb].
    + destruct (timerFires_resolved w h d res Hf Ht Hh) as (w1 & -> & Ht1 & Ho1).
      destruct (IH (scheduled w1) (timerSeq w1) (delayOf (this w1))) as (Hn & Hs & Hl).
      * simpl. by rewrite Ho1.
      * simpl. by rewrite Ht1.
      * done.
      * by rewrite Hn.
    + pose proof (timerFires_rejected w h d error Hf Ht Hh) as Ht'.
      rewrite (runTimers_idle rest _ Ht'). cbn [fst snd].
      split; [done|]. split; [|done]. unfold singleLoop. by rewrite Ht'.
Qed.

Lemma X17_loop_runs_until_a_fetch_fails_witness :
  (runTimers [Resolved None; Resolved (Some {[ "bar" := VNumber 12 ]});
              Rejected (ForeignError "down"); Resolved None] loopWorld).1 = 3.
Proof.
  refine (proj1 (X17_loop_runs_until_a_fetch_fails _ loopWorld 0 50%Z _ _ _));
    vm_compute; reflexivity.
Defined.

Lemma start_is_issue_then_settle (fetch : FetchOutcome) (w : World) :
  backendUpdateFn (options (this w)) = true →
  backendUpdateTimeout (this w) = None →
  (startBackendAutoUpdate fetch w).2 = (runBackendAutoUpdate_settle fetch w).2.
Proof.
  intros Hf Hh. unfold startBackendAutoUpdate. rewrite bind_run, getThis_run, Hf, Hh. simpl.
  rewrite bind_run. unfold runBackendAutoUpdate. rewrite bind_run, (issue_run w Hf), Hh.
  by destruct (runBackendAutoUpdate_settle fetch w) as [[[]|e] w1].
Qed.

(** X18. With a backend update function and [backendUpdateStartImmediate]
    the constructor returns while the first fetch is awaited: the instance
    is built from the default values, nothing is scheduled and no handle is
    recorded. When that fetch settles the instance is left as a call of
    [startBackendAutoUpdate] with the same outcome would have left it; when
    it fails nothing changes and no loop runs. *)
Theorem X18_immediate_start (defaults : IConfig) (opts : PartialOptions) (fetch : FetchOutcome) :
  let o := mergeOptions (options fieldInitialisers) opts in
  let r := construct (JsObject defaults) opts newWorld in
  backendUpdateFn o = true →
  backendUpdateStartImmediate o = true →
  r.1 = Ok tt
  ∧ timers r.2 = []
  ∧ backendUpdateTimeout (this r.2) = None
  ∧ (runBackendAutoUpdate_settle fetch r.2).2 = (startBackendAutoUpdate fetch r.2).2
  ∧ (∀ error, (runBackendAutoUpdate_settle (Rejected error) r.2).2 = r.2).
Proof.
  intros o r Hf _. unfold r. rewrite construct_run. cbn [fst snd].
  split; [done|]. split; [done|]. split; [done|]. split.
  - symmetry. by apply start_is_issue_then_settle.
  - intros error. by rewrite settle_rejected.
Qed.

Lemma X18_immediate_start_witness :
  let opts := mkPartialOptions None (Some true) (Some 50%Z) (Some true) None in
  let r := construct (JsObject sampleDefaults) opts newWorld in
  timers r.2 = []
  ∧ timers (runBackendAutoUpdate_settle (Resolved None) r.2).2 = [(0, 50%Z)].
Proof.
  intros opts r.
  destruct (X18_immediate_start sampleDefaults opts (Resolved None) eq_refl eq_refl)
    as (_ & Ht & _ & Hs & _).
  split; [exact Ht|]. fold r in Hs. rewrite Hs. vm_compute. reflexivity.
Defined.

(** ** Building cells and the static helpers *)





(** X21. [helperSetValue] keeps the level and the flag of a wrapped
    original and leaves a bare original bare; of two values set one after
    the other only the second remains; and setting the value
    [helperGetValue] returns for an original gives back that original. *)
Theorem X21_helperSetValue (original v1 v2 : ConfigValue) :
  isScalar v1 = true → isScalar v2 = true →
  levelOf (helperSetValue original v1) = levelOf original
  ∧ helperSetValue (helperSetValue original v1) v2 = helperSetValue original v2
  ∧ (∀ v, helperGetValue original = Some v → helperSetValue original v = original).
Proof.
  intros H1 H2. split; [|split].
  - destruct original as [| | |o]; by destruct v1.
  - destruct original as [| | |o]; by destruct v1.
  - intros v. destruct original as [| | |[x lv ro]]; simpl; try by intros [= <-].
    destruct (isScalar x); [|done]. by intros [= <-].
Qed.

Lemma X21_helperSetValue_witness :
  let original := VObject (mkObject (VNumber 1) USER (Some false)) in
  helperSetValue (helperSetValue original (VNumber 2)) (VString "x")
  = VObject (mkObject (VString "x") USER (Some false)).
Proof.
  intros original.
  exact (proj1 (proj2 (X21_helperSetValue original (VNumber 2) (VString "x")
                         eq_refl eq_refl))).
Defined.

(** ** A dynamic value stays *)





(** ** The singleton *)

Lemma construct_singleton (d : JsValue) (opts : PartialOptions) (w : World) :
  construct d opts newWorld = (Ok tt, w) →
  singleton (options (this w)) = default false (p_singleton opts).
Proof.
  rewrite construct_run_any. destruct (ownProperties d); [|done]. by intros [= <-].
Qed.

Lemma newConfiguration_made (d : JsValue) (opts : PartialOptions) (p : Program) :
  instance p = None ∨ default false (p_singleton opts) = false →
  newConfiguration d opts p
  = match construct d opts newWorld with
    | (Ok _, w) =>
        (Ok (length (objects p)),
         mkProgram (objects p ++ [w])
           (if default false (p_singleton opts) then Some (length (objects p))
            else instance p))
    | (Throw e, _) => (Throw e, p)
    end.
Proof.
  intros Hcase. unfold newConfiguration.
  assert (match construct d opts newWorld with
          | (Ok _, w) =>
              (Ok (length (objects p)),
               mkProgram (objects p ++ [w])
                 (if singleton (options (this w)) then Some (length (objects p))
                  else instance p))
          | (Throw e, _) => (Throw e, p)
          end
          = match construct d opts newWorld with
            | (Ok _, w) =>
                (Ok (length (objects p)),
                 mkProgram (objects p ++ [w])
                   (if default false (p_singleton opts) then Some (length (objects p))
                    else instance p))
            | (Throw e, _) => (Throw e, p)
            end) as ->.
  { destruct (construct d opts newWorld) as [[[]|e] w] eqn:Hc; [|done].
    by rewrite (construct_singleton d opts w Hc). }
  destruct (instance p) as [i|]; [|done].
  destruct Hcase as [Hn|Hd]; [done|by rewrite Hd].
Qed.

Lemma registered_newConfiguration (d : JsValue) (opts : PartialOptions) (p : Program) :
  registered p → registered (newConfiguration d opts p).2.
Proof.
  intros Hp. unfold newConfiguration.
  assert (registered
            (match construct d opts newWorld with
             | (Ok _, w) =>
                 (Ok (length (objects p)),
                  mkProgram (objects p ++ [w])
                    (if singleton (options (this w)) then Some (length (objects p))
                     else instance p))
             | (Throw e, _) => (Throw e, p)
             end).2) as Hmade.
  { destruct (construct d opts newWorld) as [[[]|e] w]; [|done].
    intros i. simpl. destruct (singleton (options (this w))).
    - intros [= <-]. rewrite lookup_app_r, Nat.sub_diag by done. eauto.
    - intros Hi. destruct (Hp i Hi) as [x Hx]. exists x. by apply lookup_app_l_Some. }
  destruct (instance p) as [i|]; [|done].
  by destruct (default false (p_singleton opts)).
Qed.

(** X23. With [singleton: true] among its options the constructor makes an
    object only when the static holds none, and stores it there; from then
    on every construction with [singleton: true] and every [getInstance]
    evaluate to that object and make and change nothing, whatever default
    values and options they are given. A construction without [singleton:
    true] always makes a new object and leaves the static as it is. *)
Theorem X23_singleton_is_one_object
    (p p1 : Program) (d1 : JsValue) (o1 : PartialOptions) (i : nat) :
  registered p →
  newConfiguration d1 o1 p = (Ok i, p1) →
  registered p1
  ∧ (p_singleton o1 = Some true →
     instance p1 = Some i
     ∧ is_Some (objects p1 !! i)
     ∧ (∀ d2 o2, p_singleton o2 = Some true → newConfiguration d2 o2 p1 = (Ok i, p1))
     ∧ (∀ d2 o2, Static.getInstance d2 o2 p1 = (Ok i, p1)))
  ∧ (default false (p_singleton o1) = false →
     i = length (objects p)
     ∧ instance p1 = instance p
     ∧ ∃ w, construct d1 o1 newWorld = (Ok tt, w) ∧ objects p1 = objects p ++ [w]).
Proof.
  intros Hp Hnew.
  assert (registered p1) as Hp1.
  { pose proof (registered_newConfiguration d1 o1 p Hp) as H. by rewrite Hnew in H. }
  split; [done|]. split.
  - intros Hs.
    assert (instance p1 = Some i) as Hi.
    { destruct (instance p) as [i0|] eqn:Hi0.
      - unfold newConfiguration in Hnew. rewrite Hi0, Hs in Hnew. simpl in Hnew.
        by injection Hnew as <- <-.
      - rewrite newConfiguration_made in Hnew by by left.
        destruct (construct d1 o1 newWorld) as [[[]|e] w]; [|done].
        rewrite Hs in Hnew. simpl in Hnew. by injection Hnew as <- <-. }
    split; [done|]. split; [by apply Hp1|]. split.
    + intros d2 o2 Hs2. unfold newConfiguration. by rewrite Hi, Hs2.
    + intros d2 o2. unfold Static.getInstance. by rewrite Hi.
  - intros Hs. rewrite newConfiguration_made in Hnew by by right.
    destruct (construct d1 o1 newWorld) as [[[]|e] w]; [|done].
    rewrite Hs in Hnew. injection Hnew as <- <-. simpl. eauto.
Qed.

Lemma X23_singleton_is_one_object_witness :
  let o := mkPartialOptions (Some true) None None None None in
  let r := newConfiguration (JsObject sampleDefaults) o newProgram in
  r.1 = Ok 0
  ∧ newConfiguration JsUndefined o r.2 = (Ok 0, r.2)
  ∧ Static.getInstance JsUndefined noOptions r.2 = (Ok 0, r.2).
Proof.
  intros o r.
  assert (registered newProgram) as Hp by (intros i; discriminate).
  assert (r = (Ok 0, r.2)) as Hr by (vm_compute; reflexivity).
  destruct (X23_singleton_is_one_object newProgram r.2 (JsObject sampleDefaults) o 0 Hp Hr)
    as (_ & Hs & _).
  destruct (Hs eq_refl) as (_ & _ & Hnew & Hget).
  split; [vm_compute; reflexivity|]. split.
  - exact (Hnew JsUndefined o eq_refl).
  - exact (Hget JsUndefined noOptions).
Defined.

(** X24. With no object in the static, [getInstance] throws
    [INSTANCE_NEEDS_DEFAULTCONFIGS] when it is given no default values (or
    [null], [0], [false] or the empty string for them) and changes nothing.
    Given an object of default values it makes the instance with the option
    [singleton] set, whatever the options say, stores it in the static and
    returns it. *)
Theorem X24_getInstance_makes_the_singleton
    (p : Program) (d : JsValue) (opts : PartialOptions) :
  instance p = None →
  (isTruthy d = false →
   Static.getInstance d opts p
   = (Throw (ConfigurationError ERRORCODES.INSTANCE_NEEDS_DEFAULTCONFIGS None), p))
  ∧ (∀ props, d = JsObject props →
       ∃ w, Static.getInstance d opts p
            = (Ok (length (objects p)),
               mkProgram (objects p ++ [w]) (Some (length (objects p))))
            ∧ construct d (withSingleton opts) newWorld = (Ok tt, w)
            ∧ singleton (options (this w)) = true
            ∧ readOnlyKeys (options (this w)) = default [] (p_readOnlyKeys opts)).
Proof.
  intros Hi. unfold Static.getInstance. rewrite Hi. split.
  - by intros ->.
  - intros props ->. simpl. rewrite newConfiguration_made by by left.
    rewrite construct_run. simpl. eexists. split; [reflexivity|]. done.
Qed.

Lemma X24_getInstance_makes_the_singleton_witness :
  Static.getInstance JsUndefined noOptions newProgram
  = (Throw (ConfigurationError ERRORCODES.INSTANCE_NEEDS_DEFAULTCONFIGS None), newProgram)
  ∧ (Static.getInstance (JsObject sampleDefaults)
       (mkPartialOptions (Some false) None None None None) newProgram).1 = Ok 0.
Proof.
  destruct (X24_getInstance_makes_the_singleton newProgram JsUndefined noOptions eq_refl)
    as [Hthrow _].
  destruct (X24_getInstance_makes_the_singleton newProgram (JsObject sampleDefaults)
              (mkPartialOptions (Some false) None None None None) eq_refl) as [_ Hmake].
  split; [exact (Hthrow eq_refl)|].
  destruct (Hmake sampleDefaults eq_refl) as (w & -> & _). reflexivity.
Defined.



(** X26. [clearInstance] empties the static and touches no object: the
    static reads throw again, the object that was the instance is still
    there, unchanged, and the next construction with [singleton: true] makes
    another object and stores that one. Clearing twice is clearing once. *)
Theorem X26_clearInstance
    (p p1 : Program) (i j : nat) (d : JsValue) (opts : PartialOptions) (key : string) :
  registered p → instance p = Some i →
  let p0 := Static.clearInstance p in
  objects p0 = objects p
  ∧ Static.clearInstance p0 = p0
  ∧ Static.getValue key p0
    = Throw (ConfigurationError ERRORCODES.NO_CONFIGURATION_INSTANCE None)
  ∧ (p_singleton opts = Some true → newConfiguration d opts p0 = (Ok j, p1) →
     j ≠ i ∧ instance p1 = Some j ∧ objects p1 !! i = objects p !! i).
Proof.
  intros Hp Hi p0. split; [done|]. split; [done|]. split; [done|].
  intros Hs. rewrite newConfiguration_made by by left.
  destruct (construct d opts newWorld) as [[[]|e] w]; [|done].
  rewrite Hs. simpl. intros [= <- <-]. simpl.
  destruct (Hp i Hi) as [x Hx]. pose proof (lookup_lt_Some _ _ _ Hx) as Hlt.
  split; [lia|]. split; [done|]. by rewrite lookup_app_l.
Qed.

Lemma X26_clearInstance_witness :
  let o := mkPartialOptions (Some true) None None None None in
  let p := (newConfiguration (JsObject sampleDefaults) o newProgram).2 in
  let r := newConfiguration (JsObject sampleDefaults) o (Static.clearInstance p) in
  instance p = Some 0 ∧ r.1 = Ok 1 ∧ instance r.2 = Some 1.
Proof.
  intros o p r.
  assert (registered p) as Hp.
  { apply registered_newConfiguration. intros i. discriminate. }
  assert (instance p = Some 0) as Hi by (vm_compute; reflexivity).
  assert (r = (Ok 1, r.2)) as Hr by (vm_compute; reflexivity).
  destruct (X26_clearInstance p r.2 0 1 (JsObject sampleDefaults) o "foo" Hp Hi)
    as (_ & _ & _ & Hnew).
  destruct (Hnew eq_refl Hr) as (_ & Hj & _).
  split; [exact Hi|]. split; [vm_compute; reflexivity|exact Hj].
Defined.

(** ** The React adapter *)




(** ** The levels as the getters show them *)


